(** * Signal generation and backtest accounting of [strategies.py]

    A shallow embedding of the strategy classes ([TradingStrategy],
    [SMAStrategy], [RSIStrategy], [CombinedStrategy]) and of the pandas
    column operations they are written with.

    Numbers.  The source computes on IEEE doubles held in pandas columns.
    The embedding keeps what the program's control flow depends on, the
    special values: a column entry is [NaN], an infinity, or a finite
    number.  Finite arithmetic is exact (rationals), so rounding is not
    modelled; signed zeros are not modelled either: the only place where
    the sign of a zero could be observed is the division [gain / loss] of
    the RSI, and [100 - 100 / (1 + rs)] is [100] for both infinities.
    Columns that only ever hold small integers (the signal, the raw trend
    state, the position) are lists of [Z]; after [diff] or [shift] they
    are lists of [option Z], [None] being the [NaN] pandas puts there. *)

From Stdlib Require Import Ascii String.
From Stdlib Require Import ZArith QArith List Sorted Bool Lia Lqa.
Import ListNotations.

(* ================================================================== *)
(** ** Doubles: finite rationals with the IEEE special values          *)
(* ================================================================== *)

Module IEEE.

Inductive float : Type :=
| NaN
| PInf
| NInf
| Fin (q : Q).

Definition inf (positive : bool) : float := if positive then PInf else NInf.

Definition of_Z (z : Z) : float := Fin (inject_Z z).

(** A column entry that is an integer or the [NaN] of a shifted column. *)
Definition of_opt (o : option Z) : float :=
  match o with Some z => of_Z z | None => NaN end.

Definition opp (x : float) : float :=
  match x with
  | NaN => NaN
  | PInf => NInf
  | NInf => PInf
  | Fin q => Fin (- q)
  end.

Definition add (x y : float) : float :=
  match x, y with
  | NaN, _ | _, NaN => NaN
  | PInf, NInf | NInf, PInf => NaN
  | PInf, _ | _, PInf => PInf
  | NInf, _ | _, NInf => NInf
  | Fin a, Fin b => Fin (a + b)
  end.

Definition sub (x y : float) : float := add x (opp y).

(** Sign of a finite number as IEEE sees it for a product with an
    infinity: [None] for zero (the product is [NaN]). *)
Definition positive (q : Q) : option bool :=
  match q ?= 0 with
  | Eq => None
  | Gt => Some true
  | Lt => Some false
  end.

Definition mul_inf (s : bool) (q : Q) : float :=
  match positive q with
  | None => NaN
  | Some p => inf (eqb s p)
  end.

Definition mul (x y : float) : float :=
  match x, y with
  | NaN, _ | _, NaN => NaN
  | Fin a, Fin b => Fin (a * b)
  | PInf, PInf | NInf, NInf => PInf
  | PInf, NInf | NInf, PInf => NInf
  | PInf, Fin q | Fin q, PInf => mul_inf true q
  | NInf, Fin q | Fin q, NInf => mul_inf false q
  end.

Definition div (x y : float) : float :=
  match x, y with
  | NaN, _ | _, NaN => NaN
  | Fin a, Fin b =>
      match positive b with
      | Some _ => Fin (a / b)
      | None => match positive a with
                | None => NaN
                | Some p => inf p
                end
      end
  | Fin _, (PInf | NInf) => Fin 0
  | (PInf | NInf), (PInf | NInf) => NaN
  | PInf, Fin b => match positive b with Some false => NInf | _ => PInf end
  | NInf, Fin b => match positive b with Some false => PInf | _ => NInf end
  end.

(** Comparisons: every comparison with [NaN] is false, except [!=]. *)
Definition compare (x y : float) : option comparison :=
  match x, y with
  | NaN, _ | _, NaN => None
  | PInf, PInf | NInf, NInf => Some Eq
  | PInf, _ | _, NInf => Some Gt
  | NInf, _ | _, PInf => Some Lt
  | Fin a, Fin b => Some (a ?= b)
  end.

Definition ltb (x y : float) : bool :=
  match compare x y with Some Lt => true | _ => false end.
Definition gtb (x y : float) : bool :=
  match compare x y with Some Gt => true | _ => false end.
Definition leb (x y : float) : bool :=
  match compare x y with Some (Lt | Eq) => true | _ => false end.
Definition geb (x y : float) : bool :=
  match compare x y with Some (Gt | Eq) => true | _ => false end.
Definition eqb (x y : float) : bool :=
  match compare x y with Some Eq => true | _ => false end.
Definition neb (x y : float) : bool := negb (eqb x y).

Definition is_nan (x : float) : bool :=
  match x with NaN => true | _ => false end.

(** Equality of column entries up to the representation of a rational. *)
Definition feq (x y : float) : Prop :=
  match x, y with
  | NaN, NaN | PInf, PInf | NInf, NInf => True
  | Fin a, Fin b => a == b
  | _, _ => False
  end.

(** Square root, over a square root [sq] of the non-negative rationals. *)
Definition sqrt (sq : Q -> Q) (x : float) : float :=
  match x with
  | NaN | NInf => NaN
  | PInf => PInf
  | Fin q => match q ?= 0 with Lt => NaN | _ => Fin (sq q) end
  end.

End IEEE.

Import IEEE.

Declare Scope float_scope.
Delimit Scope float_scope with F.
Bind Scope float_scope with float.
Infix "+" := add : float_scope.
Infix "-" := sub : float_scope.
Infix "*" := mul : float_scope.
Infix "/" := div : float_scope.
Notation "- x" := (opp x) : float_scope.
Infix "<?" := ltb : float_scope.
Infix ">?" := gtb : float_scope.
Infix "<=?" := leb : float_scope.
Infix ">=?" := geb : float_scope.
Infix "=~" := feq (at level 70, no associativity) : float_scope.

(* ================================================================== *)
(** ** The pandas column operations the source uses                    *)
(* ================================================================== *)

Module Pandas.

Section Elementwise.
Context {A B C : Type}.

(** [a op b] on two columns of one frame (same index). *)
Fixpoint zip_with (f : A -> B -> C) (xs : list A) (ys : list B) : list C :=
  match xs, ys with
  | x :: xs', y :: ys' => f x y :: zip_with f xs' ys'
  | _, _ => []
  end.
End Elementwise.

Section Shift.
Context {A : Type}.

Fixpoint shift_from (prev : A) (xs : list A) : list A :=
  match xs with
  | [] => []
  | x :: xs' => prev :: shift_from x xs'
  end.
End Shift.

(** [s.shift(1)] on a float column. *)
Definition shift (xs : list float) : list float := shift_from NaN xs.

(** [s.shift(1)] on an integer column: the result is a float column whose
    first entry is [NaN]. *)
Definition shift_int (xs : list Z) : list (option Z) :=
  shift_from None (map Some xs).

(** [s.diff()] on a float column: [s - s.shift(1)]. *)
Definition diff (xs : list float) : list float :=
  zip_with sub xs (shift xs).

(** [s.diff()] on an integer column. *)
Definition diff_int (xs : list Z) : list (option Z) :=
  zip_with (fun x p => option_map (fun p' => (x - p')%Z) p) xs (shift_int xs).

(** [s.fillna(v)] on an integer-valued column. *)
Definition fillna (v : Z) (xs : list (option Z)) : list Z :=
  map (fun o => match o with Some z => z | None => v end) xs.

(** [s.replace(a, b)]. *)
Definition replace (a b : Z) (xs : list Z) : list Z :=
  map (fun z => if (z =? a)%Z then b else z) xs.

(** [s.cumsum()] on an integer column. *)
Fixpoint cumsum_from (acc : Z) (xs : list Z) : list Z :=
  match xs with
  | [] => []
  | x :: xs' => (acc + x)%Z :: cumsum_from (acc + x)%Z xs'
  end.
Definition cumsum (xs : list Z) : list Z := cumsum_from 0%Z xs.

(** [s.pct_change()]: [s / s.shift(1) - 1].  (Older pandas first fills
    missing prices forward; on a column without [NaN] that changes
    nothing, and the statements below that use this column are about
    bars with finite prices.) *)
Definition pct_change (xs : list float) : list float :=
  zip_with (fun x p => (x / p - Fin 1)%F) xs (shift xs).

(** [s.cumprod()]: a [NaN] entry stays [NaN] in the result and does not
    enter the running product. *)
Fixpoint cumprod_from (acc : float) (xs : list float) : list float :=
  match xs with
  | [] => []
  | x :: xs' =>
      if is_nan x then NaN :: cumprod_from acc xs'
      else (acc * x)%F :: cumprod_from (acc * x)%F xs'
  end.
Definition cumprod (xs : list float) : list float := cumprod_from (Fin 1) xs.

Definition fsum (xs : list float) : float := fold_left add xs (Fin 0).

(** [s.rolling(window=w).mean()] for [w >= 0]: entry [i] is the mean of
    the [w] entries ending at [i]; it is [NaN] while fewer than [w]
    entries are available, when the window holds a [NaN], and when
    [w = 0]. *)
Definition window (w i : nat) (xs : list float) : list float :=
  firstn w (skipn (i + 1 - w) xs).

Definition rolling_mean_at (w : nat) (xs : list float) (i : nat) : float :=
  if (i + 1 <? w)%nat then NaN
  else (fsum (window w i xs) / of_Z (Z.of_nat w))%F.

Definition rolling_mean_nat (w : nat) (xs : list float) : list float :=
  map (rolling_mean_at w xs) (seq 0 (length xs)).

(** [s.expanding().max()]: the largest non-[NaN] entry so far, [NaN]
    while there is none. *)
Definition fmax (m x : float) : float :=
  if is_nan x then m else if is_nan m then x else if (m <? x)%F then x else m.
Definition fmin (m x : float) : float :=
  if is_nan x then m else if is_nan m then x else if (x <? m)%F then x else m.

Fixpoint expanding_max_from (m : float) (xs : list float) : list float :=
  match xs with
  | [] => []
  | x :: xs' => fmax m x :: expanding_max_from (fmax m x) xs'
  end.
Definition expanding_max (xs : list float) : list float :=
  expanding_max_from NaN xs.

(** [s.min()], [s.mean()], [s.std()]: [NaN] entries are skipped.

    The sums of [mean] and [var] are exact here, where pandas adds and
    divides doubles: a mean or a deviation that is some finite number
    here (the deviation 0 of a constant column, say) may be off by
    rounding in the program, and a comparison of it with 0 may then go
    the other way.  What does not depend on rounding is whether the
    result is [NaN]: the number of defined entries decides it, here and
    in pandas alike.  Nothing below is concluded from a finite value of
    [mean], [var] or [std]. *)
Definition nanmin (xs : list float) : float := fold_left fmin xs NaN.

Definition dropna (xs : list float) : list float :=
  filter (fun x => negb (is_nan x)) xs.

Definition mean (xs : list float) : float :=
  let ys := dropna xs in
  (fsum ys / of_Z (Z.of_nat (length ys)))%F.

(** Sample variance ([ddof = 1]): [NaN] unless two entries are defined. *)
Definition var (xs : list float) : float :=
  let ys := dropna xs in
  let m := mean xs in
  if (length ys <=? 1)%nat then NaN
  else (fsum (map (fun y => (y - m) * (y - m))%F ys)
        / of_Z (Z.of_nat (length ys) - 1))%F.

Definition std (sq : Q -> Q) (xs : list float) : float := sqrt sq (var xs).

End Pandas.

Import Pandas.

(** [df.loc[mask, col] = v]. *)
Definition loc_set (mask : list bool) (v : Z) (col : list Z) : list Z :=
  zip_with (fun (m : bool) x => if m then v else x) mask col.

(* ================================================================== *)
(** ** Exceptions                                                      *)
(* ================================================================== *)

Inductive exn : Type :=
| ValueError   (* pandas: "window must be an integer 0 or greater" *)
| IndexError.  (* [iloc[-1]] on an empty column *)

Definition result (A : Type) : Type := (exn + A)%type.

Definition ret {A} (a : A) : result A := inr a.
Definition raise {A} (e : exn) : result A := inl e.
Definition bind {A B} (m : result A) (k : A -> result B) : result B :=
  match m with
  | inl e => inl e
  | inr a => k a
  end.

Notation "x <- m ;; k" := (bind m (fun x => k))
  (at level 61, m at next level, right associativity).

(** [s.rolling(window=w)] validates the window before anything is
    computed. *)
Definition rolling_mean (w : Z) (xs : list float) : result (list float) :=
  if (w <? 0)%Z then raise ValueError
  else ret (rolling_mean_nat (Z.to_nat w) xs).

(** [s.iloc[-1]]. *)
Definition iloc_last {A} (xs : list A) : result A :=
  match rev xs with
  | [] => raise IndexError
  | x :: _ => ret x
  end.

(* ================================================================== *)
(** ** The strategy objects                                            *)
(* ================================================================== *)

(** One bar of the input frame: its date (the index) and its close. *)
Record Bar : Type := { date : Z; Close : float }.

(** [self.signals]. Columns the source adds after construction are
    present from the start and empty until they are assigned; the number
    of rows is the length of the index. *)
Record DataFrame : Type := {
  index : list Z;
  price : list float;
  signal : list Z;
  position : list Z;
  short_ma : list float;
  long_ma : list float;
  rsi : list float;
  market_return : list float;
  strategy_return : list float;
  cumulative_market : list float;
  cumulative_strategy : list float;
  portfolio_value : list float
}.

Definition len (df : DataFrame) : nat := length (index df).

(** The subclass and the parameters its constructor stores. *)
Inductive parameters : Type :=
| SMA (short_window long_window : Z)
| RSI (rsi_period : Z) (oversold overbought : Q)
| Combined (short_window long_window rsi_period : Z) (oversold overbought : Q).

Record TradingStrategy : Type := {
  data : list Bar;
  params : parameters;
  signals : DataFrame
}.

Definition zeros {A} (xs : list A) : list Z := map (fun _ => 0%Z) xs.

(** [TradingStrategy.__init__]. *)
Definition init (data : list Bar) (p : parameters) : TradingStrategy :=
  {| data := data;
     params := p;
     signals := {| index := map date data;
                   price := map Close data;
                   signal := zeros data;
                   position := zeros data;
                   short_ma := []; long_ma := []; rsi := [];
                   market_return := []; strategy_return := [];
                   cumulative_market := []; cumulative_strategy := [];
                   portfolio_value := [] |} |}.

(** The three constructors: each calls the base constructor and stores
    its arguments. *)
Definition SMAStrategy (data : list Bar) (short_window long_window : Z)
  : result TradingStrategy :=
  ret (init data (SMA short_window long_window)).

Definition RSIStrategy (data : list Bar) (rsi_period : Z)
    (oversold overbought : Q) : result TradingStrategy :=
  ret (init data (RSI rsi_period oversold overbought)).

Definition CombinedStrategy (data : list Bar)
    (short_window long_window rsi_period : Z) (oversold overbought : Q)
  : result TradingStrategy :=
  ret (init data (Combined short_window long_window rsi_period
                           oversold overbought)).

(* ------------------------------------------------------------------ *)
(** *** Indicators                                                     *)

(** [delta.where(delta > 0, 0)] and [-delta.where(delta < 0, 0)]. *)
Definition gains (delta : list float) : list float :=
  map (fun d => if (d >? Fin 0)%F then d else Fin 0) delta.
Definition losses (delta : list float) : list float :=
  map (fun d => (- (if (d <? Fin 0)%F then d else Fin 0))%F) delta.

Definition rsi_of_rs (rs : float) : float :=
  (Fin 100 - Fin 100 / (Fin 1 + rs))%F.

Definition avg_gain (period : Z) (prices : list float) : result (list float) :=
  rolling_mean period (gains (diff prices)).
Definition avg_loss (period : Z) (prices : list float) : result (list float) :=
  rolling_mean period (losses (diff prices)).

(** The RSI column, as both [RSIStrategy] and [CombinedStrategy] compute
    it. *)
Definition compute_rsi (period : Z) (prices : list float)
  : result (list float) :=
  gain <- avg_gain period prices ;;
  loss <- avg_loss period prices ;;
  ret (map rsi_of_rs (zip_with div gain loss)).

(* ------------------------------------------------------------------ *)
(** *** Signal rules                                                   *)

(** [SMAStrategy]: the raw trend state before [diff]. *)
Definition sma_state (short long : list float) : list Z :=
  let s0 := zeros short in
  let s1 := loc_set (zip_with gtb short long) 1%Z s0 in
  loc_set (zip_with ltb short long) (-1)%Z s1.

(** [RSIStrategy]: the signal column from the RSI column. *)
Definition rsi_signal (oversold overbought : Q) (r : list float) : list Z :=
  let s0 := zeros r in
  let s1 := loc_set (zip_with andb
                       (map (fun x => x <? Fin oversold)%F r)
                       (map (fun x => x >=? Fin oversold)%F (shift r)))
                    1%Z s0 in
  loc_set (zip_with andb
             (map (fun x => x >? Fin overbought)%F r)
             (map (fun x => x <=? Fin overbought)%F (shift r)))
          (-1)%Z s1.

(** [CombinedStrategy]: the raw state before [diff]. *)
Definition combined_state (oversold overbought : Q)
    (short long r : list float) : list Z :=
  let s0 := zeros short in
  let s1 := loc_set (zip_with andb
                       (zip_with gtb short long)
                       (map (fun x => x <? Fin oversold)%F r))
                    1%Z s0 in
  loc_set (zip_with orb
             (zip_with ltb short long)
             (map (fun x => x >? Fin overbought)%F r))
          (-1)%Z s1.

(** "Only trigger on crossover": [diff], then [fillna(0, inplace=True)]
    on the column, taken to reach the frame as it does without
    copy-on-write. *)
Definition crossover (state : list Z) : list Z := fillna 0%Z (diff_int state).

Definition set_signal (df : DataFrame) (sig : list Z) : DataFrame :=
  {| index := index df; price := price df; signal := sig;
     position := position df;
     short_ma := short_ma df; long_ma := long_ma df; rsi := rsi df;
     market_return := market_return df;
     strategy_return := strategy_return df;
     cumulative_market := cumulative_market df;
     cumulative_strategy := cumulative_strategy df;
     portfolio_value := portfolio_value df |}.

Definition set_ma (df : DataFrame) (s l : list float) : DataFrame :=
  {| index := index df; price := price df; signal := signal df;
     position := position df;
     short_ma := s; long_ma := l; rsi := rsi df;
     market_return := market_return df;
     strategy_return := strategy_return df;
     cumulative_market := cumulative_market df;
     cumulative_strategy := cumulative_strategy df;
     portfolio_value := portfolio_value df |}.

Definition set_rsi (df : DataFrame) (r : list float) : DataFrame :=
  {| index := index df; price := price df; signal := signal df;
     position := position df;
     short_ma := short_ma df; long_ma := long_ma df; rsi := r;
     market_return := market_return df;
     strategy_return := strategy_return df;
     cumulative_market := cumulative_market df;
     cumulative_strategy := cumulative_strategy df;
     portfolio_value := portfolio_value df |}.

(** [generate_signals] of the three subclasses, on the frame. *)
Definition generate_frame (p : parameters) (df : DataFrame)
  : result DataFrame :=
  match p with
  | SMA short_window long_window =>
      s <- rolling_mean short_window (price df) ;;
      l <- rolling_mean long_window (price df) ;;
      ret (set_signal (set_ma df s l) (crossover (sma_state s l)))
  | RSI rsi_period oversold overbought =>
      r <- compute_rsi rsi_period (price df) ;;
      ret (set_signal (set_rsi df r) (rsi_signal oversold overbought r))
  | Combined short_window long_window rsi_period oversold overbought =>
      s <- rolling_mean short_window (price df) ;;
      l <- rolling_mean long_window (price df) ;;
      r <- compute_rsi rsi_period (price df) ;;
      ret (set_signal (set_rsi (set_ma df s l) r)
             (crossover (combined_state oversold overbought s l r)))
  end.

Definition with_signals (self : TradingStrategy) (df : DataFrame)
  : TradingStrategy :=
  {| data := data self; params := params self; signals := df |}.

Definition generate_signals (self : TradingStrategy) : result TradingStrategy :=
  df <- generate_frame (params self) (signals self) ;;
  ret (with_signals self df).

(* ------------------------------------------------------------------ *)
(** *** Backtest                                                       *)

(** What [backtest] returns; [signals_df] is [self.signals]. *)
Record BacktestResult : Type := {
  total_return : float;
  win_rate : float;
  max_drawdown : float;
  sharpe_ratio : float;
  final_value : float;
  total_trades : nat;
  signals_df : DataFrame
}.

(** The position column: [signal.replace(-1, 0).cumsum()]. *)
Definition position_of (sig : list Z) : list Z :=
  cumsum (replace (-1)%Z 0%Z sig).

(** [position.shift(1) * market_return]. *)
Definition strategy_return_of (pos : list Z) (mr : list float) : list float :=
  zip_with mul (map of_opt (shift_int pos)) mr.

Definition cumulative (returns : list float) : list float :=
  cumprod (map (fun r => Fin 1 + r)%F returns).

(** The drawdown column and its minimum, in percent. *)
Definition drawdown (cum : list float) : list float :=
  zip_with (fun c m => (c - m) / m)%F cum (expanding_max cum).

Definition max_drawdown_of (cum : list float) : float :=
  (nanmin (drawdown cum) * Fin 100)%F.

(** [len(signals[strategy_return > 0])] and [len(signals[signal != 0])]. *)
Definition winning_trades (sr : list float) : nat :=
  length (filter (fun r => r >? Fin 0)%F sr).
Definition count_trades (sig : list Z) : nat :=
  length (filter (fun z => negb (z =? 0)%Z) sig).

Definition win_rate_of (sr : list float) (sig : list Z) : float :=
  if (0 <? count_trades sig)%nat
  then (of_Z (Z.of_nat (winning_trades sr))
        / of_Z (Z.of_nat (count_trades sig)) * Fin 100)%F
  else Fin 0.

Definition risk_free_rate : float := Fin 0.06.

Definition excess_returns (sr : list float) : list float :=
  map (fun r => r - risk_free_rate / Fin 252)%F sr.

Section Backtest.

(** The square root of a non-negative finite number; nothing below
    depends on which one it is. *)
Variable sq : Q -> Q.

Definition sharpe_of (sr : list float) : float :=
  let ex := excess_returns sr in
  if neb (std sq ex) (Fin 0)
  then (sqrt sq (Fin 252) * mean ex / std sq ex)%F
  else Fin 0.

(** The frame after the return columns have been assigned. *)
Definition backtest_frame (df : DataFrame) (initial_capital : Q)
  : DataFrame :=
  let pos := position_of (signal df) in
  let mr := pct_change (price df) in
  let sr := strategy_return_of pos mr in
  {| index := index df; price := price df; signal := signal df;
     position := pos;
     short_ma := short_ma df; long_ma := long_ma df; rsi := rsi df;
     market_return := mr;
     strategy_return := sr;
     cumulative_market := cumulative mr;
     cumulative_strategy := cumulative sr;
     portfolio_value :=
       map (fun c => Fin initial_capital * c)%F (cumulative sr) |}.

(** [TradingStrategy.backtest]. *)
Definition backtest (self : TradingStrategy) (initial_capital : Q)
  : result (TradingStrategy * BacktestResult) :=
  self1 <- generate_signals self ;;
  let df := backtest_frame (signals self1) initial_capital in
  last_value <- iloc_last (portfolio_value df) ;;
  ret (with_signals self1 df,
       {| total_return :=
            ((last_value - Fin initial_capital) / Fin initial_capital
             * Fin 100)%F;
          win_rate := win_rate_of (strategy_return df) (signal df);
          max_drawdown := max_drawdown_of (cumulative_strategy df);
          sharpe_ratio := sharpe_of (strategy_return df);
          final_value := last_value;
          total_trades := count_trades (signal df);
          signals_df := df |}).

End Backtest.

(* ------------------------------------------------------------------ *)
(** *** The current signal                                             *)

Inductive label : Type := BUY | SELL | HOLD.

(** [signal_map.get(latest_signal, 'HOLD')]. *)
Definition signal_map_get (latest_signal : Z) : label :=
  match latest_signal with
  | 1%Z => BUY
  | (-1)%Z => SELL
  | _ => HOLD
  end.

Record CurrentSignal : Type := {
  cs_signal : label;
  cs_price : float;
  cs_date : Z
}.

(** [TradingStrategy.get_current_signal]. *)
Definition get_current_signal (self : TradingStrategy)
  : result (TradingStrategy * CurrentSignal) :=
  self1 <- (if (len (signals self) =? 0)%nat
            then generate_signals self
            else ret self) ;;
  latest_signal <- iloc_last (signal (signals self1)) ;;
  latest_price <- iloc_last (price (signals self1)) ;;
  latest_date <- iloc_last (index (signals self1)) ;;
  ret (self1, {| cs_signal := signal_map_get latest_signal;
                 cs_price := latest_price;
                 cs_date := latest_date |}).

(** A concrete square root for running the model: the floor of the
    root on the grid of multiples of [2^-32]. *)
Definition sqrt_floor (q : Q) : Q :=
  (Z.sqrt (Qnum q * 2 ^ 64 / Z.pos (Qden q)) # 2 ^ 32).

(** A frame of closes on consecutive dates. *)
Definition bars (closes : list Q) : list Bar :=
  zip_with (fun d c => {| date := Z.of_nat d; Close := Fin c |})
           (seq 0 (length closes)) closes.

(* ------------------------------------------------------------------ *)
(** *** Auxiliary definitions for the statements                       *)

(** Construction of any of the three subclasses. *)
Definition construct (data : list Bar) (p : parameters)
  : result TradingStrategy :=
  match p with
  | SMA s l => SMAStrategy data s l
  | RSI n os ob => RSIStrategy data n os ob
  | Combined s l n os ob => CombinedStrategy data s l n os ob
  end.

(** The parameter sets the specification calls invalid. *)
Definition invalid_sma (s l : Z) : Prop := (s <= 0 \/ l <= 0 \/ l <= s)%Z.
Definition invalid_rsi (n : Z) (os ob : Q) : Prop := (n <= 0)%Z \/ ob <= os.

Definition invalid_parameters (p : parameters) : Prop :=
  match p with
  | SMA s l => invalid_sma s l
  | RSI n os ob => invalid_rsi n os ob
  | Combined s l n os ob => invalid_sma s l \/ invalid_rsi n os ob
  end.

(** The windows pandas refuses. *)
Definition negative_window (p : parameters) : bool :=
  match p with
  | SMA s l => (s <? 0)%Z || (l <? 0)%Z
  | RSI n _ _ => (n <? 0)%Z
  | Combined s l n _ _ => (s <? 0)%Z || (l <? 0)%Z || (n <? 0)%Z
  end.

Definition rolling (w : Z) (xs : list float) : list float :=
  rolling_mean_nat (Z.to_nat w) xs.

Definition rsi_column (period : Z) (prices : list float) : list float :=
  map rsi_of_rs
    (zip_with div (rolling period (gains (diff prices)))
                  (rolling period (losses (diff prices)))).

(** The signal column as a function of the price column, for windows
    pandas accepts. *)
Definition signal_of (p : parameters) (prices : list float) : list Z :=
  match p with
  | SMA s l => crossover (sma_state (rolling s prices) (rolling l prices))
  | RSI n os ob => rsi_signal os ob (rsi_column n prices)
  | Combined s l n os ob =>
      crossover (combined_state os ob (rolling s prices) (rolling l prices)
                                (rsi_column n prices))
  end.


(** The RSI at bar [t] is below (above, at least, at most) a threshold;
    false on a bar that does not exist and on an undefined RSI. *)
Definition rsi_at (cmp : float -> float -> bool) (threshold : Q)
    (r : list float) (t : nat) : Prop :=
  exists x, nth_error r t = Some x /\ cmp x (Fin threshold) = true.

(** RSI moves from [>= oversold] at the previous bar to [< oversold]. *)
Definition enters_oversold (oversold : Q) (r : list float) (t : nat) : Prop :=
  exists t', t = S t' /\ rsi_at geb oversold r t' /\ rsi_at ltb oversold r t.

(** RSI moves from [<= overbought] at the previous bar to [> overbought]. *)
Definition enters_overbought (overbought : Q) (r : list float) (t : nat)
  : Prop :=
  exists t', t = S t' /\ rsi_at leb overbought r t' /\ rsi_at gtb overbought r t.

(** The number of [+1] signals among the [k] bars from bar [t] on. *)
Definition buys_in (sig : list Z) (t k : nat) : nat :=
  count_occ Z.eq_dec (firstn k (skipn t sig)) 1%Z.

(** The two rules of [CombinedStrategy] at one bar. *)
Definition buy_rule (oversold : Q) (short long r : float) : bool :=
  (short >? long)%F && (r <? Fin oversold)%F.
Definition sell_rule (overbought : Q) (short long r : float) : bool :=
  (short <? long)%F || (r >? Fin overbought)%F.

(** The previous entry of a column, as [shift] sees it. *)
Definition previous (r : list float) (t : nat) : float :=
  match t with
  | 0%nat => NaN
  | S t' => match nth_error r t' with Some p => p | None => NaN end
  end.

(** The RSI period of the two subclasses that compute an RSI. *)
Definition rsi_period_of (p : parameters) : option Z :=
  match p with
  | SMA _ _ => None
  | RSI n _ _ => Some n
  | Combined _ _ n _ _ => Some n
  end.

(** Frames of the examples. *)
Definition frame_of (closes : list Q) (p : parameters) : DataFrame :=
  signals (init (bars closes) p).

Definition generated (closes : list Q) (p : parameters) : DataFrame :=
  match generate_frame p (frame_of closes p) with
  | inr df => df
  | inl _ => frame_of closes p
  end.

(** A dip: the RSI(1) of these closes is 100 at bar 1, 0 on the five
    bars 2..6, and 100 again at bar 7. *)
Definition dip : list Q := [10; 11; 9; 8; 7; 6; 5; 6].
(** Finite entries and positive prices. *)
Definition finite (x : float) : Prop := exists q, x = Fin q.
Definition positive_price (x : float) : Prop := exists q, x = Fin q /\ 0 < q.

(** The maximum drawdown as the specification words it: the running
    maximum at bar [t] is the largest defined cumulative value among the
    bars up to and including [t], and the result is the least defined
    relative drop below it, in percent. *)
Definition running_max (cum : list float) (t : nat) : float :=
  fold_left fmax (firstn (S t) cum) NaN.

Definition drawdown_at (cum : list float) (t : nat) : float :=
  ((nth t cum NaN - running_max cum t) / running_max cum t)%F.

Definition max_drawdown_pct (cum : list float) : float :=
  (nanmin (map (drawdown_at cum) (seq 0 (length cum))) * Fin 100)%F.

(** A column whose defined entries never decrease. *)
Definition nondecreasing (cum : list float) : Prop :=
  forall i j a b, (i <= j)%nat ->
                  nth_error cum i = Some (Fin a) ->
                  nth_error cum j = Some (Fin b) ->
                  a <= b.

(** One entry of the drawdown column, and what is proved of it. *)
Definition drop (c m : float) : float := ((c - m) / m)%F.
Definition nonpositive (d : float) : Prop := exists q, d = Fin q /\ q <= 0.
Definition zero (d : float) : Prop := exists q, d = Fin q /\ q == 0.

(** A column whose entries are all the finite number [k]. *)
Definition all_eq (k : Q) (ys : list float) : Prop :=
  Forall (fun y => exists q, y = Fin q /\ q == k) ys.

(* ------------------------------------------------------------------ *)
(** *** Further definitions for the statements                         *)

(** The history is shorter than a window the signal rule needs: for the
    combined rule, shorter than the RSI period and than one of the two
    moving-average windows. *)
Definition insufficient_history (p : parameters) (bars : nat) : Prop :=
  match p with
  | SMA s l => (Z.of_nat bars < s \/ Z.of_nat bars < l)%Z
  | RSI n _ _ => (Z.of_nat bars < n)%Z
  | Combined s l n _ _ =>
      (Z.of_nat bars < s \/ Z.of_nat bars < l)%Z /\ (Z.of_nat bars < n)%Z
  end.

(** The raw state whose first difference the SMA and the combined
    strategy emit, read off the indicator columns of a generated frame
    (no such state for the RSI strategy). *)
Definition raw_state (p : parameters) (df : DataFrame) : list Z :=
  match p with
  | SMA _ _ => sma_state (short_ma df) (long_ma df)
  | RSI _ _ _ => []
  | Combined _ _ _ os ob =>
      combined_state os ob (short_ma df) (long_ma df) (rsi df)
  end.

Definition emits_crossovers (p : parameters) : bool :=
  match p with RSI _ _ _ => false | _ => true end.

(** An RSI value: undefined, or a number between 0 and 100. *)
Definition rsi_value (x : float) : Prop :=
  x = NaN \/ exists q, x = Fin q /\ 0 <= q <= 100.

(** A finite number that is not negative; an entry that is such a number
    or undefined. *)
Definition nonneg (x : float) : Prop := exists q, x = Fin q /\ 0 <= q.
Definition nonneg_or_nan (x : float) : Prop := x = NaN \/ nonneg x.

(* ================================================================== *)
(** ** The data loader ([data_loader.py])                              *)
(* ================================================================== *)

(** [IndianMarketDataLoader].  What lies outside the program is a
    parameter: [str.upper], the frames yfinance returns with their
    [empty] attribute, the text [to_csv] writes and [read_csv] parses,
    and the joining of a directory and a file name.  The file system is
    a map from paths to files with their modification time, the clock
    and the answer of the remote service are given per call.  Times are
    in microseconds.  The messages the loader prints are left out. *)

Module Loader.

Import ListNotations.
Local Open Scope string_scope.

(** [c in s] for a single character. *)
Definition contains (c : ascii) (s : string) : bool :=
  existsb (Ascii.eqb c) (list_ascii_of_string s).

(** [s.replace(old, new)] for a single character [old]. *)
Fixpoint replace_char (old : ascii) (new : string) (s : string) : string :=
  match s with
  | EmptyString => EmptyString
  | String c s' =>
      if Ascii.eqb c old then new ++ replace_char old new s'
      else String c (replace_char old new s')
  end.

(** [self.popular_tickers]. *)
Definition popular_tickers : list (string * string) :=
  [("NIFTY50", "^NSEI");
   ("BANKNIFTY", "^NSEBANK");
   ("SENSEX", "^BSESN");
   ("RELIANCE", "RELIANCE.NS");
   ("TCS", "TCS.NS");
   ("INFY", "INFY.NS");
   ("HDFC", "HDFCBANK.NS");
   ("ICICI", "ICICIBANK.NS");
   ("ITC", "ITC.NS");
   ("SBIN", "SBIN.NS");
   ("WIPRO", "WIPRO.NS");
   ("BHARTIARTL", "BHARTIARTL.NS");
   ("KOTAKBANK", "KOTAKBANK.NS");
   ("LT", "LT.NS");
   ("HINDUNILVR", "HINDUNILVR.NS")].

(** [d[k]] guarded by [k in d]. *)
Fixpoint lookup {V} (k : string) (d : list (string * V)) : option V :=
  match d with
  | [] => None
  | (k', v) :: d' => if String.eqb k k' then Some v else lookup k d'
  end.

(** [d[k] = v]: an existing key keeps its place. *)
Fixpoint dict_set {V} (k : string) (v : V) (d : list (string * V))
  : list (string * V) :=
  match d with
  | [] => [(k, v)]
  | (k', v') :: d' =>
      if String.eqb k k' then (k', v) :: d' else (k', v') :: dict_set k v d'
  end.

(** A name that is taken for a Yahoo ticker as it is. *)
Definition is_symbol (name : string) : bool :=
  contains "." name || contains "^" name.

(** The upper case of the ASCII letters, for running the model. *)
Definition ascii_upper (c : ascii) : ascii :=
  let n := nat_of_ascii c in
  if (97 <=? n)%nat && (n <=? 122)%nat then ascii_of_nat (n - 32) else c.

Fixpoint upper_ascii (s : string) : string :=
  match s with
  | EmptyString => EmptyString
  | String c s' => String (ascii_upper c) (upper_ascii s')
  end.

Section Symbols.

Variable upper : string -> string.

(** [get_ticker_symbol]. *)
Definition get_ticker_symbol (name : string) : string :=
  if is_symbol name then name
  else
    let name_upper := upper name in
    match lookup name_upper popular_tickers with
    | Some symbol => symbol
    | None => name_upper ++ ".NS"
    end.

(** The file name of the cache entry of a symbol and a period. *)
Definition cache_name (ticker_symbol period : string) : string :=
  replace_char "." "_" (replace_char "^" "" ticker_symbol)
  ++ "_" ++ period ++ ".csv".

End Symbols.

Inductive io_error : Type :=
| RemoteError    (* anything [yf.download] raises *)
| NoData         (* the [ValueError] of an empty download *)
| WriteError     (* [to_csv] cannot write the file *)
| ParseError.    (* [read_csv] cannot read the file *)

Definition io (A : Type) : Type := (io_error + A)%type.

Section Download.

Variable upper : string -> string.
Variable frame : Type.
Variable is_empty : frame -> bool.
(** [pd.DataFrame()] *)
Variable empty_frame : frame.
Variable csv : Type.
Variable to_csv : frame -> csv.
Variable read_csv : csv -> io frame.
(** [cache_dir / name] *)
Variable path_join : string -> string -> string.

Record file : Type := { mtime : Z; contents : csv }.

Definition FS : Type := string -> option file.

Definition write (fs : FS) (path : string) (f : file) : FS :=
  fun p => if String.eqb p path then Some f else fs p.

(** What a call meets outside: the clock, the answer of the remote
    service for a symbol and a period, and whether a path can be written
    (a write succeeds, or fails and leaves the file as it was). *)
Record Env : Type := {
  now : Z;
  yf_download : string -> string -> io frame;
  writable : string -> bool
}.

Definition one_day : Z := 86400 * 1000000.

Definition cache_path (cache_dir ticker period : string) : string :=
  path_join cache_dir (cache_name (get_ticker_symbol upper ticker) period).

(** The cache entry is used: it is asked for, exists and is less than a
    day old. *)
Definition cache_hit (cache_dir : string) (env : Env) (fs : FS)
    (ticker period : string) (use_cache : bool) : option file :=
  if use_cache then
    match fs (cache_path cache_dir ticker period) with
    | Some f => if (now env - mtime f <? one_day)%Z then Some f else None
    | None => None
    end
  else None.

(** The [try] block: what it raises is caught and answered with an
    empty frame. *)
Definition try_download (env : Env) (fs : FS)
    (ticker_symbol period cache_file : string) : io (frame * FS) :=
  match yf_download env ticker_symbol period with
  | inl e => inl e
  | inr data =>
      if is_empty data then inl NoData
      else if writable env cache_file
           then inr (data, write fs cache_file
                             {| mtime := now env; contents := to_csv data |})
           else inl WriteError
  end.

(** [download_data]: the frame returned or the error raised, and the
    file system afterwards. *)
Definition download_data (cache_dir : string) (env : Env) (fs : FS)
    (ticker period : string) (use_cache : bool) : io frame * FS :=
  let ticker_symbol := get_ticker_symbol upper ticker in
  let cache_file := path_join cache_dir (cache_name ticker_symbol period) in
  match cache_hit cache_dir env fs ticker period use_cache with
  | Some f => (read_csv (contents f), fs)
  | None =>
      match try_download env fs ticker_symbol period cache_file with
      | inr (data, fs') => (inr data, fs')
      | inl _ => (inr empty_frame, fs)
      end
  end.

(** [download_multiple]: the calls are made one after the other, call
    [i] in the environment [env_at i]; an error of a call ends the
    loop. *)
Fixpoint download_loop (cache_dir : string) (env_at : nat -> Env) (i : nat)
    (fs : FS) (results : list (string * frame)) (tickers : list string)
    (period : string) : io (list (string * frame)) * FS :=
  match tickers with
  | [] => (inr results, fs)
  | ticker :: rest =>
      match download_data cache_dir (env_at i) fs ticker period true with
      | (inl e, fs') => (inl e, fs')
      | (inr data, fs') =>
          download_loop cache_dir env_at (S i) fs'
            (if is_empty data then results else dict_set ticker data results)
            rest period
      end
  end.

Definition download_multiple (cache_dir : string) (env_at : nat -> Env)
    (fs : FS) (tickers : list string) (period : string)
  : io (list (string * frame)) * FS :=
  download_loop cache_dir env_at 0 fs [] tickers period.

End Download.

Arguments Build_file {csv}.
Arguments mtime {csv}.
Arguments contents {csv}.
Arguments write {csv}.
Arguments Build_Env {frame}.
Arguments now {frame}.
Arguments yf_download {frame}.
Arguments writable {frame}.
Arguments cache_hit upper {frame csv}.
Arguments try_download {frame} is_empty {csv}.
Arguments download_data upper {frame} is_empty empty_frame {csv}.
Arguments download_loop upper {frame} is_empty empty_frame {csv}.
Arguments download_multiple upper {frame} is_empty empty_frame {csv}.

(** An instance for running the model: a frame is its list of closes,
    the file holds the list, and paths are joined with a slash. *)
Definition join_slash (dir name : string) : string := dir ++ "/" ++ name.

Definition list_is_empty (xs : list Z) : bool :=
  match xs with [] => true | _ => false end.

End Loader.

(** An entry that is undefined or the finite number [k]. *)
Definition eq_or_nan (k : Q) (y : float) : Prop :=
  y = NaN \/ exists q, y = Fin q /\ q == k.
(* ================================================================== *)
(** ** Columns: lengths and entries                                    *)
(* ================================================================== *)

Section ColumnFacts.
Context {A B C : Type}.

Lemma zip_with_length (f : A -> B -> C) xs ys :
  length (zip_with f xs ys) = Nat.min (length xs) (length ys).
Proof.
  revert ys; induction xs as [|x xs IH]; intros [|y ys]; simpl; auto.
Qed.

Lemma zip_with_nth_error (f : A -> B -> C) xs ys t :
  nth_error (zip_with f xs ys) t =
  match nth_error xs t, nth_error ys t with
  | Some x, Some y => Some (f x y)
  | _, _ => None
  end.
Proof.
  revert xs ys; induction t as [|t IH]; intros [|x xs] [|y ys]; simpl; auto.
  destruct (nth_error xs t); reflexivity.
Qed.

Lemma shift_from_length (prev : A) xs :
  length (shift_from prev xs) = length xs.
Proof. revert prev; induction xs; intros; simpl; auto. Qed.

Lemma shift_from_nth_error_0 (prev : A) xs :
  xs <> [] -> nth_error (shift_from prev xs) 0 = Some prev.
Proof. destruct xs; simpl; congruence. Qed.

Lemma shift_from_nth_error_S (prev : A) xs t :
  nth_error (shift_from prev xs) (S t) =
  match nth_error xs (S t) with
  | Some _ => nth_error xs t
  | None => None
  end.
Proof.
  revert prev t; induction xs as [|x xs IH]; intros prev t; simpl; auto.
  destruct t as [|t].
  - destruct xs; reflexivity.
  - apply IH.
Qed.

Lemma iloc_last_nonempty (xs : list A) :
  xs <> [] -> exists x, iloc_last xs = inr x.
Proof.
  intros H. unfold iloc_last.
  destruct (rev xs) as [|y ys] eqn:E.
  - apply (f_equal (@rev A)) in E. rewrite rev_involutive in E.
    simpl in E. contradiction.
  - exists y. reflexivity.
Qed.

Lemma iloc_last_empty : iloc_last (@nil A) = inl IndexError.
Proof. reflexivity. Qed.
End ColumnFacts.

Lemma loc_set_length mask v col :
  length (loc_set mask v col) = Nat.min (length mask) (length col).
Proof. apply zip_with_length. Qed.

Lemma zeros_length {A} (xs : list A) : length (zeros xs) = length xs.
Proof. apply length_map. Qed.

Lemma shift_length xs : length (shift xs) = length xs.
Proof. apply shift_from_length. Qed.

Lemma diff_length xs : length (diff xs) = length xs.
Proof. unfold diff. rewrite zip_with_length, shift_length. lia. Qed.

Lemma crossover_length st : length (crossover st) = length st.
Proof.
  unfold crossover, fillna, diff_int, shift_int.
  rewrite length_map, zip_with_length, shift_from_length, length_map. lia.
Qed.

Lemma rolling_mean_nat_length w xs :
  length (rolling_mean_nat w xs) = length xs.
Proof. unfold rolling_mean_nat. now rewrite length_map, length_seq. Qed.

Lemma rolling_mean_ok w xs :
  (0 <= w)%Z -> rolling_mean w xs = inr (rolling_mean_nat (Z.to_nat w) xs).
Proof.
  intros H. unfold rolling_mean.
  destruct (Z.ltb_spec w 0); [lia | reflexivity].
Qed.

Lemma rolling_mean_negative w xs :
  (w < 0)%Z -> rolling_mean w xs = inl ValueError.
Proof.
  intros H. unfold rolling_mean.
  destruct (Z.ltb_spec w 0); [reflexivity | lia].
Qed.

Lemma rolling_mean_length w xs ys :
  rolling_mean w xs = inr ys -> length ys = length xs.
Proof.
  unfold rolling_mean. destruct (w <? 0)%Z; [discriminate|].
  intros E; injection E as <-. apply rolling_mean_nat_length.
Qed.

Lemma compute_rsi_ok period prices :
  (0 <= period)%Z ->
  compute_rsi period prices =
  inr (map rsi_of_rs
         (zip_with div
            (rolling_mean_nat (Z.to_nat period) (gains (diff prices)))
            (rolling_mean_nat (Z.to_nat period) (losses (diff prices))))).
Proof.
  intros H. unfold compute_rsi, avg_gain, avg_loss.
  now rewrite !rolling_mean_ok.
Qed.

Lemma compute_rsi_negative period prices :
  (period < 0)%Z -> compute_rsi period prices = inl ValueError.
Proof.
  intros H. unfold compute_rsi, avg_gain.
  now rewrite rolling_mean_negative.
Qed.

Lemma compute_rsi_length period prices r :
  compute_rsi period prices = inr r -> length r = length prices.
Proof.
  destruct (Z.ltb_spec period 0) as [Hn|Hp].
  - rewrite compute_rsi_negative by assumption. discriminate.
  - rewrite compute_rsi_ok by assumption. intros E; injection E as <-.
    rewrite length_map, zip_with_length, !rolling_mean_nat_length.
    unfold gains, losses. rewrite !length_map, diff_length. lia.
Qed.

(* ================================================================== *)
(** ** Construction and signal generation                              *)
(* ================================================================== *)

Lemma generate_frame_negative p df :
  negative_window p = true -> generate_frame p df = inl ValueError.
Proof.
  destruct p as [s l | n os ob | s l n os ob]; simpl; intros H.
  - destruct (Z.ltb_spec s 0).
    + now rewrite rolling_mean_negative.
    + rewrite rolling_mean_ok by assumption. simpl.
      destruct (Z.ltb_spec l 0); [|discriminate].
      now rewrite rolling_mean_negative.
  - apply Z.ltb_lt in H. now rewrite compute_rsi_negative.
  - destruct (Z.ltb_spec s 0).
    + now rewrite rolling_mean_negative.
    + rewrite rolling_mean_ok by assumption. simpl.
      destruct (Z.ltb_spec l 0).
      * now rewrite rolling_mean_negative.
      * rewrite rolling_mean_ok by assumption. simpl.
        destruct (Z.ltb_spec n 0); [|discriminate].
        now rewrite compute_rsi_negative.
Qed.

Lemma generate_frame_ok p df :
  negative_window p = false ->
  exists df', generate_frame p df = inr df' /\
              signal df' = signal_of p (price df) /\
              price df' = price df /\
              index df' = index df.
Proof.
  destruct p as [s l | n os ob | s l n os ob]; simpl; intros H.
  - apply orb_false_iff in H as [Hs Hl].
    apply Z.ltb_ge in Hs, Hl.
    rewrite !rolling_mean_ok by assumption. simpl.
    eexists; split; [reflexivity|]. simpl. auto.
  - apply Z.ltb_ge in H.
    rewrite compute_rsi_ok by assumption. simpl.
    eexists; split; [reflexivity|]. simpl. auto.
  - apply orb_false_iff in H as [H Hn].
    apply orb_false_iff in H as [Hs Hl].
    apply Z.ltb_ge in Hs, Hl, Hn.
    rewrite !rolling_mean_ok, compute_rsi_ok by assumption. simpl.
    eexists; split; [reflexivity|]. simpl. auto.
Qed.

Lemma generate_frame_inv p df df' :
  generate_frame p df = inr df' ->
  negative_window p = false /\
  signal df' = signal_of p (price df) /\
  price df' = price df /\
  index df' = index df.
Proof.
  intros E. destruct (negative_window p) eqn:N.
  - rewrite generate_frame_negative in E by assumption. discriminate.
  - destruct (generate_frame_ok p df N) as (df2 & E2 & ?).
    rewrite E in E2. injection E2 as <-. auto.
Qed.

(** [get_current_signal] on a frame with rows never generates. *)
Lemma get_current_signal_rows self :
  len (signals self) <> 0%nat ->
  get_current_signal self =
  (latest_signal <- iloc_last (signal (signals self)) ;;
   latest_price <- iloc_last (price (signals self)) ;;
   latest_date <- iloc_last (index (signals self)) ;;
   ret (self, {| cs_signal := signal_map_get latest_signal;
                 cs_price := latest_price;
                 cs_date := latest_date |})).
Proof.
  intros H. unfold get_current_signal.
  destruct (Nat.eqb_spec (len (signals self)) 0); [contradiction|].
  reflexivity.
Qed.

Lemma iloc_last_zeros {A} (xs : list A) :
  xs <> [] -> iloc_last (zeros xs) = inr 0%Z.
Proof.
  intros H. unfold iloc_last, zeros. rewrite <- map_rev.
  destruct (rev xs) as [|y ys] eqn:E; [|reflexivity].
  apply (f_equal (@rev A)) in E. rewrite rev_involutive in E.
  simpl in E. contradiction.
Qed.

(** On a freshly constructed strategy over a non-empty series the answer
    is always HOLD, whatever the parameters and the prices are, and the
    signal column is left as the constructor made it. *)
Lemma get_current_signal_fresh data p :
  data <> [] ->
  exists c, get_current_signal (init data p) = inr (init data p, c) /\
            cs_signal c = HOLD.
Proof.
  intros H.
  rewrite get_current_signal_rows.
  2:{ unfold len; simpl. rewrite length_map. destruct data; simpl; congruence. }
  simpl. rewrite iloc_last_zeros by assumption. simpl.
  destruct (iloc_last_nonempty (map Close data)) as [x ->].
  { destruct data; simpl; congruence. }
  destruct (iloc_last_nonempty (map date data)) as [d ->].
  { destruct data; simpl; congruence. }
  simpl. eexists; split; reflexivity.
Qed.

(* ================================================================== *)
(** ** Comparisons                                                     *)
(* ================================================================== *)

Ltac float_cases :=
  unfold ltb, gtb, leb, geb, IEEE.eqb, neb, compare, feq in *;
  repeat match goal with
         | x : float |- _ => destruct x
         end;
  simpl in *; try discriminate; try tauto;
  repeat match goal with
         | H : context [?a ?= ?b] |- _ =>
             destruct (Qcompare_spec a b); simpl in H
         | |- context [?a ?= ?b] =>
             destruct (Qcompare_spec a b); simpl
         end;
  try discriminate; try tauto; try lra; auto.

Lemma ltb_not_geb x y : (x <? y)%F = true -> (x >=? y)%F = false.
Proof. intros H. float_cases. Qed.

Lemma gtb_not_leb x y : (x >? y)%F = true -> (x <=? y)%F = false.
Proof. intros H. float_cases. Qed.

(** Entering oversold and entering overbought exclude each other at a
    bar, whatever the two thresholds are. *)
Lemma edges_exclusive os ob cur prev :
  (cur >? Fin ob)%F = true -> (prev <=? Fin ob)%F = true ->
  (cur <? Fin os)%F = true -> (prev >=? Fin os)%F = true -> False.
Proof. intros H1 H2 H3 H4. float_cases. Qed.

Lemma gtb_feq_r x y z : (y =~ z)%F -> (x >? y)%F = (x >? z)%F.
Proof. intros H. float_cases. Qed.

Lemma gtb_irrefl_feq x q : (x =~ Fin q)%F -> (x >? Fin q)%F = false.
Proof. intros H. float_cases. Qed.

Lemma gtb_not_ltb x y : (x >? y)%F = true -> (x <? y)%F = false.
Proof. intros H. float_cases. Qed.

(* ================================================================== *)
(** ** The signal rules, bar by bar                                    *)
(* ================================================================== *)

Lemma shift_nth_error r t :
  nth_error (shift r) t =
  match nth_error r t with
  | None => None
  | Some _ => match t with 0%nat => Some NaN | S t' => nth_error r t' end
  end.
Proof.
  unfold shift. destruct t as [|t].
  - destruct r; reflexivity.
  - rewrite shift_from_nth_error_S. reflexivity.
Qed.

Lemma zeros_nth_error {A} (xs : list A) t :
  nth_error (zeros xs) t = option_map (fun _ => 0%Z) (nth_error xs t).
Proof. apply nth_error_map. Qed.

Lemma shift_previous r t x :
  nth_error r t = Some x -> nth_error (shift r) t = Some (previous r t).
Proof.
  intros H. rewrite shift_nth_error, H. destruct t as [|t]; simpl; auto.
  destruct (nth_error r t) eqn:E; auto.
  apply nth_error_None in E.
  assert (nth_error r (S t) <> None) as N by congruence.
  apply nth_error_Some in N. lia.
Qed.

Lemma rsi_signal_length os ob r : length (rsi_signal os ob r) = length r.
Proof.
  unfold rsi_signal.
  rewrite !loc_set_length, !zip_with_length, !length_map, zeros_length,
    shift_length. lia.
Qed.

Lemma rsi_signal_entry os ob r t x :
  nth_error r t = Some x ->
  nth_error (rsi_signal os ob r) t =
  Some (if (x >? Fin ob)%F && (previous r t <=? Fin ob)%F then (-1)%Z
        else if (x <? Fin os)%F && (previous r t >=? Fin os)%F then 1%Z
             else 0%Z).
Proof.
  intros H. unfold rsi_signal, loc_set.
  rewrite !zip_with_nth_error, !nth_error_map, zeros_nth_error.
  rewrite (shift_previous _ _ _ H), H. simpl.
  reflexivity.
Qed.

Lemma rsi_signal_none os ob r t :
  nth_error r t = None -> nth_error (rsi_signal os ob r) t = None.
Proof.
  intros H. apply nth_error_None. rewrite rsi_signal_length.
  now apply nth_error_None.
Qed.

(** Every entry of the RSI strategy's signal column is -1, 0 or +1. *)
Lemma rsi_signal_range os ob r z :
  In z (rsi_signal os ob r) -> z = (-1)%Z \/ z = 0%Z \/ z = 1%Z.
Proof.
  intros H. apply In_nth_error in H as [t H].
  destruct (nth_error r t) as [x|] eqn:E.
  - rewrite (rsi_signal_entry os ob _ _ _ E) in H. injection H as <-.
    destruct (_ && _); auto. destruct (_ && _); auto.
  - rewrite rsi_signal_none in H by assumption. discriminate.
Qed.

Lemma previous_S r t p :
  nth_error r t = Some p -> previous r (S t) = p.
Proof. intros H. simpl. now rewrite H. Qed.

Lemma rsi_signal_buy os ob r t :
  nth_error (rsi_signal os ob r) t = Some 1%Z <-> enters_oversold os r t.
Proof.
  split.
  - intros H.
    destruct (nth_error r t) as [x|] eqn:E.
    2:{ rewrite rsi_signal_none in H by assumption. discriminate. }
    rewrite (rsi_signal_entry os ob _ _ _ E) in H.
    destruct (_ && _); [discriminate|].
    destruct ((x <? Fin os)%F && _) eqn:B; [|discriminate].
    apply andb_true_iff in B as [B1 B2].
    destruct t as [|t]; [discriminate B2|].
    simpl in B2. destruct (nth_error r t) as [p|] eqn:P; [|discriminate B2].
    exists t. split; [reflexivity|].
    split; [exists p | exists x]; auto.
  - intros (t' & -> & (p & P & Hp) & (x & E & Hx)).
    rewrite (rsi_signal_entry os ob _ _ _ E), (previous_S _ _ _ P).
    rewrite Hx, Hp. simpl.
    destruct ((x >? Fin ob)%F && (p <=? Fin ob)%F) eqn:S; [|reflexivity].
    apply andb_true_iff in S as [S1 S2].
    exfalso. eapply edges_exclusive; eauto.
Qed.

Lemma rsi_signal_sell os ob r t :
  nth_error (rsi_signal os ob r) t = Some (-1)%Z <-> enters_overbought ob r t.
Proof.
  split.
  - intros H.
    destruct (nth_error r t) as [x|] eqn:E.
    2:{ rewrite rsi_signal_none in H by assumption. discriminate. }
    rewrite (rsi_signal_entry os ob _ _ _ E) in H.
    destruct ((x >? Fin ob)%F && _) eqn:B.
    + apply andb_true_iff in B as [B1 B2].
      destruct t as [|t]; [discriminate B2|].
      simpl in B2. destruct (nth_error r t) as [p|] eqn:P; [|discriminate B2].
      exists t. split; [reflexivity|].
      split; [exists p | exists x]; auto.
    + destruct ((x <? Fin os)%F && (previous r t >=? Fin os)%F);
        discriminate.
  - intros (t' & -> & (p & P & Hp) & (x & E & Hx)).
    rewrite (rsi_signal_entry os ob _ _ _ E), (previous_S _ _ _ P).
    now rewrite Hx, Hp.
Qed.

Lemma segment_cons {A} (l : list A) t k x :
  nth_error l t = Some x ->
  firstn (S k) (skipn t l) = x :: firstn k (skipn (S t) l).
Proof.
  revert l; induction t as [|t IH]; intros [|y l] H; try discriminate.
  - injection H as ->. reflexivity.
  - simpl in H. apply IH in H. exact H.
Qed.

Lemma segment_nil {A} (l : list A) t k :
  nth_error l t = None -> firstn k (skipn t l) = [].
Proof.
  intros H. apply nth_error_None in H.
  rewrite skipn_all2 by assumption. apply firstn_nil.
Qed.

(** Inside an excursion below [oversold] no buy fires after its first
    bar. *)
Lemma no_buy_inside os ob r t k :
  rsi_at ltb os r t ->
  (forall i, (i < k)%nat -> rsi_at ltb os r (S t + i)) ->
  buys_in (rsi_signal os ob r) (S t) k = 0%nat.
Proof.
  unfold buys_in.
  revert t; induction k as [|k IH]; intros t Ht Hrun.
  - reflexivity.
  - destruct (Hrun 0%nat ltac:(lia)) as (x & E & Hx).
    rewrite Nat.add_0_r in E.
    assert (nth_error (rsi_signal os ob r) (S t) <> Some 1%Z) as N.
    { intros B. apply rsi_signal_buy in B as (t' & T & (p & P & Hp) & _).
      injection T as <-. destruct Ht as (p' & P' & Hp').
      rewrite P in P'. injection P' as <-.
      apply ltb_not_geb in Hp'. congruence. }
    destruct (nth_error (rsi_signal os ob r) (S t)) as [z|] eqn:Hz.
    + rewrite (@segment_cons _ _ _ _ _ Hz).
      rewrite count_occ_cons_neq by congruence.
      apply IH.
      * exists x. rewrite <- Hx. auto.
      * intros i Hi. specialize (Hrun (S i) ltac:(lia)).
        now rewrite Nat.add_succ_r in Hrun.
    + now rewrite segment_nil.
Qed.

Lemma buys_in_at_most_one os ob r t k :
  (forall i, (i < k)%nat -> rsi_at ltb os r (t + i)) ->
  (buys_in (rsi_signal os ob r) t k <= 1)%nat.
Proof.
  intros Hrun. destruct k as [|k]; [unfold buys_in; simpl; lia|].
  pose proof (Hrun 0%nat ltac:(lia)) as H0. rewrite Nat.add_0_r in H0.
  assert (buys_in (rsi_signal os ob r) (S t) k = 0%nat) as Hrest.
  { apply no_buy_inside; auto.
    intros i Hi. specialize (Hrun (S i) ltac:(lia)).
    now rewrite Nat.add_succ_r in Hrun. }
  unfold buys_in in *.
  destruct (nth_error (rsi_signal os ob r) t) as [z|] eqn:Hz.
  - rewrite (@segment_cons _ _ _ _ _ Hz).
    destruct (Z.eq_dec z 1) as [Heq|Hne].
    + rewrite count_occ_cons_eq, Hrest by assumption. lia.
    + rewrite count_occ_cons_neq, Hrest by assumption. lia.
  - rewrite segment_nil by assumption. simpl. lia.
Qed.

Lemma buys_in_exactly_one os ob r t k :
  rsi_at geb os r t ->
  (forall i, (i <= k)%nat -> rsi_at ltb os r (S t + i)) ->
  buys_in (rsi_signal os ob r) (S t) (S k) = 1%nat.
Proof.
  intros Hprev Hrun.
  pose proof (Hrun 0%nat ltac:(lia)) as H0. rewrite Nat.add_0_r in H0.
  assert (nth_error (rsi_signal os ob r) (S t) = Some 1%Z) as B.
  { apply rsi_signal_buy. exists t. auto. }
  assert (buys_in (rsi_signal os ob r) (S (S t)) k = 0%nat) as Hrest.
  { apply no_buy_inside; auto.
    intros i Hi. specialize (Hrun (S i) ltac:(lia)).
    now rewrite Nat.add_succ_r in Hrun. }
  unfold buys_in in *.
  rewrite (@segment_cons _ _ _ _ _ B).
  rewrite count_occ_cons_eq by reflexivity. now rewrite Hrest.
Qed.

Lemma generate_frame_rsi p n df df' :
  rsi_period_of p = Some n ->
  generate_frame p df = inr df' ->
  compute_rsi n (price df) = inr (rsi df').
Proof.
  intros Hp E. destruct (generate_frame_inv _ _ _ E) as (N & _).
  destruct p as [s l | m os ob | s l m os ob]; simpl in Hp; try discriminate;
    injection Hp as ->; simpl in N, E.
  - apply Z.ltb_ge in N.
    rewrite compute_rsi_ok in * by assumption. simpl in E.
    injection E as <-. reflexivity.
  - apply orb_false_iff in N as [N Hn].
    apply orb_false_iff in N as [Hs Hl].
    apply Z.ltb_ge in Hs, Hl, Hn.
    rewrite !rolling_mean_ok, compute_rsi_ok in * by assumption. simpl in E.
    injection E as <-. reflexivity.
Qed.

Lemma generate_frame_rsi_signal n os ob df df' :
  generate_frame (RSI n os ob) df = inr df' ->
  signal df' = rsi_signal os ob (rsi df').
Proof.
  intros E. pose proof (generate_frame_rsi (RSI n os ob) n df df' eq_refl E) as R.
  simpl in E. rewrite R in E. simpl in E. injection E as <-. reflexivity.
Qed.

Lemma generate_frame_combined s l n os ob df df' :
  generate_frame (Combined s l n os ob) df = inr df' ->
  rolling_mean s (price df) = inr (short_ma df') /\
  rolling_mean l (price df) = inr (long_ma df') /\
  signal df' =
  crossover (combined_state os ob (short_ma df') (long_ma df') (rsi df')).
Proof.
  intros E. simpl in E.
  destruct (rolling_mean s (price df)) as [e|sm]; [discriminate|].
  destruct (rolling_mean l (price df)) as [e|lm]; [discriminate|].
  destruct (compute_rsi n (price df)) as [e|r]; [discriminate|].
  simpl in E. injection E as <-. simpl. auto.
Qed.

Lemma combined_state_entry os ob short long r t sm lm x :
  nth_error short t = Some sm ->
  nth_error long t = Some lm ->
  nth_error r t = Some x ->
  nth_error (combined_state os ob short long r) t =
  Some (if sell_rule ob sm lm x then (-1)%Z
        else if buy_rule os sm lm x then 1%Z else 0%Z).
Proof.
  intros Hs Hl Hr. unfold combined_state, loc_set.
  rewrite !zip_with_nth_error, !nth_error_map, zeros_nth_error.
  rewrite Hs, Hl, Hr. reflexivity.
Qed.

(** With a bullish SMA condition and the RSI exactly at [overbought]
    the sell rule does not hold. *)
Lemma sell_rule_at_threshold ob sm lm x :
  (sm >? lm)%F = true -> (x =~ Fin ob)%F -> sell_rule ob sm lm x = false.
Proof.
  intros Hb Hx. unfold sell_rule.
  rewrite (gtb_not_ltb _ _ Hb), (gtb_irrefl_feq _ _ Hx). reflexivity.
Qed.

Lemma positive_zero q : q == 0 -> positive q = None.
Proof.
  intros H. unfold positive. destruct (Qcompare_spec q 0); auto; lra.
Qed.

Lemma positive_pos q : 0 < q -> positive q = Some true.
Proof.
  intros H. unfold positive. destruct (Qcompare_spec q 0); auto; lra.
Qed.

Lemma positive_neg q : q < 0 -> positive q = Some false.
Proof.
  intros H. unfold positive. destruct (Qcompare_spec q 0); auto; lra.
Qed.

Lemma positive_nonzero q : ~ q == 0 -> exists s, positive q = Some s.
Proof.
  intros H. unfold positive. destruct (Qcompare_spec q 0); eauto.
  contradiction.
Qed.

(* ================================================================== *)
(** ** The signal column: length and first bar                         *)
(* ================================================================== *)

Lemma sma_state_length short long :
  length (sma_state short long)
  = Nat.min (length short) (length long).
Proof.
  unfold sma_state.
  rewrite !loc_set_length, !zip_with_length, zeros_length. lia.
Qed.

Lemma combined_state_length os ob short long r :
  length (combined_state os ob short long r)
  = Nat.min (length short) (Nat.min (length long) (length r)).
Proof.
  unfold combined_state.
  rewrite !loc_set_length, !zip_with_length, !length_map, zeros_length.
  lia.
Qed.

Lemma rolling_length w xs : length (rolling w xs) = length xs.
Proof. apply rolling_mean_nat_length. Qed.

Lemma rsi_column_length n prices :
  length (rsi_column n prices) = length prices.
Proof.
  unfold rsi_column, gains, losses.
  rewrite length_map, zip_with_length, !rolling_length, !length_map,
    diff_length. lia.
Qed.

Lemma signal_of_length p prices :
  length (signal_of p prices) = length prices.
Proof.
  destruct p as [s l | n os ob | s l n os ob]; simpl.
  - rewrite crossover_length, sma_state_length, !rolling_length. lia.
  - now rewrite rsi_signal_length, rsi_column_length.
  - rewrite crossover_length, combined_state_length, !rolling_length,
      rsi_column_length. lia.
Qed.

Lemma crossover_head st : hd 0%Z (crossover st) = 0%Z.
Proof. destruct st as [|x [|y st]]; reflexivity. Qed.

Lemma rsi_signal_head os ob r : hd 0%Z (rsi_signal os ob r) = 0%Z.
Proof.
  destruct r as [|x r]; [reflexivity|].
  pose proof (rsi_signal_entry os ob (x :: r) 0 x eq_refl) as H.
  destruct (rsi_signal os ob (x :: r)) as [|z zs]; [reflexivity|].
  simpl in H. injection H as ->.
  rewrite !andb_false_r. reflexivity.
Qed.

(** No strategy signals at the first bar. *)
Lemma signal_of_head p prices : hd 0%Z (signal_of p prices) = 0%Z.
Proof.
  destruct p; simpl;
    [apply crossover_head | apply rsi_signal_head | apply crossover_head].
Qed.

(* ================================================================== *)
(** ** The columns of the backtest                                     *)
(* ================================================================== *)

Lemma cumsum_from_length acc xs : length (cumsum_from acc xs) = length xs.
Proof. revert acc; induction xs; intros; simpl; auto. Qed.

Lemma position_of_length sig : length (position_of sig) = length sig.
Proof.
  unfold position_of, cumsum, replace.
  now rewrite cumsum_from_length, length_map.
Qed.

Lemma pct_change_length xs : length (pct_change xs) = length xs.
Proof. unfold pct_change. rewrite zip_with_length, shift_length. lia. Qed.

Lemma shift_int_length xs : length (shift_int xs) = length xs.
Proof. unfold shift_int. now rewrite shift_from_length, length_map. Qed.

Lemma strategy_return_of_length pos mr :
  length (strategy_return_of pos mr) = Nat.min (length pos) (length mr).
Proof.
  unfold strategy_return_of.
  now rewrite zip_with_length, length_map, shift_int_length.
Qed.

Lemma cumprod_from_length acc xs : length (cumprod_from acc xs) = length xs.
Proof.
  revert acc; induction xs as [|x xs IH]; intros; simpl; auto.
  destruct (is_nan x); simpl; now rewrite IH.
Qed.

Lemma cumulative_length rs : length (cumulative rs) = length rs.
Proof.
  unfold cumulative, cumprod. now rewrite cumprod_from_length, length_map.
Qed.

(** What a successful [backtest] is made of. *)
Lemma backtest_inv sq self ic self' r :
  backtest sq self ic = inr (self', r) ->
  exists df1,
    generate_frame (params self) (signals self) = inr df1 /\
    signals_df r = backtest_frame df1 ic /\
    signals self' = signals_df r /\
    win_rate r = win_rate_of (strategy_return (signals_df r))
                             (signal (signals_df r)) /\
    max_drawdown r = max_drawdown_of (cumulative_strategy (signals_df r)) /\
    sharpe_ratio r = sharpe_of sq (strategy_return (signals_df r)) /\
    total_trades r = count_trades (signal (signals_df r)) /\
    iloc_last (portfolio_value (signals_df r)) = inr (final_value r).
Proof.
  unfold backtest, generate_signals. intros E.
  destruct (generate_frame (params self) (signals self)) as [e|df1];
    [discriminate|].
  simpl in E.
  destruct (iloc_last _) as [e|v] eqn:L; [discriminate|].
  simpl in E. injection E as <- <-.
  exists df1. simpl. repeat split; auto.
Qed.

(** [backtest] returns whenever pandas accepts the windows and there is
    at least one bar. *)
Lemma backtest_returns sq self ic :
  negative_window (params self) = false ->
  price (signals self) <> [] ->
  exists self' r, backtest sq self ic = inr (self', r).
Proof.
  intros N P.
  destruct (generate_frame_ok (params self) (signals self) N)
    as (df1 & E & Hs & Hp & _).
  unfold backtest, generate_signals. rewrite E.
  cbn [bind ret signals with_signals].
  destruct (iloc_last_nonempty (portfolio_value (backtest_frame df1 ic)))
    as [v L].
  { intros C. apply (f_equal (@length float)) in C.
    unfold backtest_frame in C. cbn [portfolio_value] in C.
    rewrite length_map, cumulative_length, strategy_return_of_length,
      position_of_length, pct_change_length, Hs, signal_of_length, Hp in C.
    simpl in C. destruct (price (signals self)); simpl in *; [auto | lia]. }
  rewrite L. cbn [bind ret]. eauto.
Qed.

Lemma backtest_empty sq self ic :
  price (signals self) = [] ->
  backtest sq self ic = inl IndexError \/ backtest sq self ic = inl ValueError.
Proof.
  intros P. unfold backtest, generate_signals.
  destruct (negative_window (params self)) eqn:N.
  - right. now rewrite generate_frame_negative.
  - left. destruct (generate_frame_ok (params self) (signals self) N)
      as (df1 & E & Hs & Hp & _).
    rewrite E. simpl.
    assert (signal df1 = []) as S0.
    { apply length_zero_iff_nil.
      now rewrite Hs, signal_of_length, P. }
    rewrite Hp, P, S0. reflexivity.
Qed.

(** Position, market return and strategy return, bar by bar. *)
Lemma pct_change_head x xs :
  pct_change (x :: xs) = NaN :: zip_with (fun x p => (x / p - Fin 1)%F)
                                         xs (shift_from x xs).
Proof.
  unfold pct_change, shift. simpl. f_equal. now destruct x.
Qed.

Lemma pct_change_S prices t p0 p1 :
  nth_error prices t = Some p0 ->
  nth_error prices (S t) = Some p1 ->
  nth_error (pct_change prices) (S t) = Some (p1 / p0 - Fin 1)%F.
Proof.
  intros H0 H1. unfold pct_change.
  now rewrite zip_with_nth_error, shift_nth_error, H1, H0.
Qed.

Lemma shift_int_S pos t z :
  nth_error pos t = Some z ->
  (S t < length pos)%nat ->
  nth_error (shift_int pos) (S t) = Some (Some z).
Proof.
  intros H L. unfold shift_int.
  rewrite shift_from_nth_error_S, !nth_error_map, H.
  destruct (nth_error pos (S t)) eqn:E; [reflexivity|].
  apply nth_error_None in E. lia.
Qed.

Lemma strategy_return_of_S pos mr t z m :
  nth_error pos t = Some z ->
  (S t < length pos)%nat ->
  nth_error mr (S t) = Some m ->
  nth_error (strategy_return_of pos mr) (S t) = Some (of_Z z * m)%F.
Proof.
  intros Hz L Hm. unfold strategy_return_of.
  rewrite zip_with_nth_error, nth_error_map.
  now rewrite (shift_int_S _ _ _ Hz L), Hm.
Qed.

Lemma strategy_return_of_0 pos mr m :
  pos <> [] ->
  nth_error mr 0 = Some m ->
  nth_error (strategy_return_of pos mr) 0 = Some NaN.
Proof.
  intros P Hm. destruct pos as [|z pos]; [contradiction|].
  destruct mr as [|m' mr]; [discriminate|]. reflexivity.
Qed.

(** The market return in the form the specification writes it. *)
Lemma pct_formula a b :
  (Fin b / Fin a - Fin 1 =~ (Fin b - Fin a) / Fin a)%F.
Proof.
  unfold sub. simpl. unfold positive.
  destruct (Qcompare_spec a 0) as [Ha|Ha|Ha].
  - destruct (Qcompare_spec b 0) as [Hb|Hb|Hb];
      destruct (Qcompare_spec (b + - a) 0); simpl; auto; lra.
  - simpl. field. lra.
  - simpl. field. lra.
Qed.

(* ================================================================== *)
(** ** The drawdown: the code against the specification's formula      *)
(* ================================================================== *)

Lemma expanding_max_from_spec m xs :
  expanding_max_from m xs
  = map (fun t => fold_left fmax (firstn (S t) xs) m) (seq 0 (length xs)).
Proof.
  revert m; induction xs as [|x xs IH]; intros m; [reflexivity|].
  cbn [expanding_max_from length seq map]. f_equal.
  rewrite IH, <- seq_shift, map_map. reflexivity.
Qed.

Lemma zip_with_map_seq {A B C} (g : A -> B -> C) (d : A) xs (h : nat -> B) :
  zip_with g xs (map h (seq 0 (length xs)))
  = map (fun t => g (nth t xs d) (h t)) (seq 0 (length xs)).
Proof.
  revert h; induction xs as [|x xs IH]; intros h; [reflexivity|].
  cbn [length seq map zip_with nth]. f_equal.
  rewrite <- seq_shift, !map_map. apply IH.
Qed.

Lemma max_drawdown_of_spec cum :
  max_drawdown_of cum = max_drawdown_pct cum.
Proof.
  unfold max_drawdown_of, max_drawdown_pct, drawdown, expanding_max.
  rewrite expanding_max_from_spec.
  now rewrite (zip_with_map_seq _ NaN).
Qed.

(* ================================================================== *)
(** ** Positive finite prices keep every column finite                 *)
(* ================================================================== *)

Lemma pct_tail_finite xs p :
  0 < p ->
  Forall positive_price xs ->
  Forall finite (zip_with (fun x p => (x / p - Fin 1)%F) xs
                          (shift_from (Fin p) xs)).
Proof.
  intros Hp H. revert p Hp.
  induction H as [|x xs (q & -> & Hq) _ IH]; intros p Hp; simpl.
  - constructor.
  - constructor; [|now apply IH].
    rewrite (positive_pos _ Hp). eexists; reflexivity.
Qed.

Lemma shifted_positions_integral z zs :
  Forall (fun x => exists z', x = of_Z z')
         (map of_opt (shift_from (Some z) (map Some zs))).
Proof.
  revert z; induction zs as [|y zs IH]; intros z; simpl; constructor.
  - now exists z.
  - apply IH.
Qed.

Lemma mul_zip_finite xs ys :
  Forall (fun x => exists z, x = of_Z z) xs ->
  Forall finite ys ->
  Forall finite (zip_with mul xs ys).
Proof.
  intros Hx. revert ys.
  induction Hx as [|x xs (z & ->) _ IH]; intros ys Hy; simpl.
  - constructor.
  - destruct Hy as [|y ys (q & ->) Hy]; constructor.
    + eexists; reflexivity.
    + now apply IH.
Qed.

Lemma one_plus_finite xs :
  Forall finite xs -> Forall finite (map (fun r => Fin 1 + r)%F xs).
Proof.
  induction 1 as [|x xs (q & ->) _ IH]; simpl; constructor; auto.
  eexists; reflexivity.
Qed.

Lemma cumprod_from_finite a xs :
  Forall finite xs -> Forall finite (cumprod_from (Fin a) xs).
Proof.
  intros H. revert a.
  induction H as [|x xs (q & ->) _ IH]; intros a; simpl; constructor.
  - eexists; reflexivity.
  - apply IH.
Qed.

(* ================================================================== *)
(** ** The drawdown below a positive running maximum                   *)
(* ================================================================== *)

Lemma fmax_Fin m c :
  exists m', fmax (Fin m) (Fin c) = Fin m' /\ m <= m' /\ c <= m' /\
             (m' = c \/ (m' = m /\ c <= m)).
Proof.
  unfold fmax, ltb; simpl.
  destruct (Qcompare_spec m c); eexists; (split; [reflexivity|]);
    repeat split; try lra; auto; right; split; auto; lra.
Qed.

Lemma drop_Fin c m :
  0 < m -> drop (Fin c) (Fin m) = Fin ((c + - m) / m).
Proof.
  intros H. unfold drop, sub. simpl. now rewrite (positive_pos _ H).
Qed.

Lemma drawdown_nonpositive cs m :
  0 < m ->
  Forall finite cs ->
  Forall nonpositive (zip_with drop cs (expanding_max_from (Fin m) cs)).
Proof.
  intros Hm H. revert m Hm.
  induction H as [|c cs (q & ->) _ IH]; intros m Hm; simpl; [constructor|].
  destruct (fmax_Fin m q) as (m' & -> & H1 & H2 & _).
  assert (0 < m') as Hm' by lra.
  constructor; [|now apply IH].
  rewrite (drop_Fin _ _ Hm'). eexists; split; [reflexivity|].
  apply Qle_shift_div_r; lra.
Qed.

Lemma drawdown_zero cs m :
  0 < m ->
  Forall finite cs ->
  Forall (fun c => forall b, c = Fin b -> m <= b) cs ->
  StronglySorted (fun x y => forall a b, x = Fin a -> y = Fin b -> a <= b) cs ->
  Forall zero (zip_with drop cs (expanding_max_from (Fin m) cs)).
Proof.
  intros Hm H. revert m Hm.
  induction H as [|c cs (q & ->) _ IH]; intros m Hm Hlow Hs; simpl;
    [constructor|].
  apply Forall_cons_iff in Hlow as [Hq Hlow].
  specialize (Hq q eq_refl).
  apply StronglySorted_inv in Hs as [Hs Hhd].
  destruct (fmax_Fin m q) as (m' & -> & H1 & H2 & H3).
  assert (0 < m') as Hm' by lra.
  assert (m' == q) as Heq by (destruct H3 as [->|[-> ?]]; lra).
  constructor.
  - rewrite (drop_Fin _ _ Hm'). eexists; split; [reflexivity|].
    rewrite Heq. field. lra.
  - apply IH; auto.
    apply Forall_forall. intros c Hc b ->.
    rewrite Forall_forall in Hhd. specialize (Hhd _ Hc q b eq_refl eq_refl).
    lra.
Qed.

Lemma fmin_Fin m x :
  exists m', fmin (Fin m) (Fin x) = Fin m' /\ (m' = m \/ m' = x) /\
             m' <= m /\ m' <= x.
Proof.
  unfold fmin, ltb; simpl.
  destruct (Qcompare_spec x m); eexists; (split; [reflexivity|]);
    repeat split; auto; lra.
Qed.

Lemma nanmin_nonpositive ds q0 :
  q0 <= 0 ->
  Forall nonpositive ds ->
  exists q, fold_left fmin ds (Fin q0) = Fin q /\ q <= 0.
Proof.
  intros H0 H. revert q0 H0.
  induction H as [|d ds (q & -> & Hq) _ IH]; intros q0 H0; simpl.
  - eauto.
  - destruct (fmin_Fin q0 q) as (m' & -> & _ & H1 & H2). apply IH. lra.
Qed.

Lemma nanmin_zero ds q0 :
  q0 == 0 ->
  Forall zero ds ->
  exists q, fold_left fmin ds (Fin q0) = Fin q /\ q == 0.
Proof.
  intros H0 H. revert q0 H0.
  induction H as [|d ds (q & -> & Hq) _ IH]; intros q0 H0; simpl.
  - eauto.
  - destruct (fmin_Fin q0 q) as (m' & -> & [->| ->] & _); apply IH; lra.
Qed.

Lemma nondecreasing_tail x xs : nondecreasing (x :: xs) -> nondecreasing xs.
Proof.
  intros H i j a b Hij Hi Hj. apply (H (S i) (S j) a b); auto. lia.
Qed.

Lemma nondecreasing_head a xs :
  nondecreasing (Fin a :: xs) ->
  Forall (fun c => forall b, c = Fin b -> a <= b) xs.
Proof.
  intros H. apply Forall_forall. intros c Hc b ->.
  apply In_nth_error in Hc as [j Hj].
  apply (H 0%nat (S j) a b); auto. lia.
Qed.

Lemma nondecreasing_sorted xs :
  nondecreasing xs ->
  StronglySorted (fun x y => forall a b, x = Fin a -> y = Fin b -> a <= b) xs.
Proof.
  induction xs as [|x xs IH]; intros H; constructor.
  - apply IH. eapply nondecreasing_tail; eauto.
  - apply Forall_forall. intros y Hy a b -> ->.
    apply In_nth_error in Hy as [j Hj].
    apply (H 0%nat (S j) a b); auto. lia.
Qed.

(** The drawdown of a cumulative column that is undefined at the first
    bar, positive at the second and finite from there on. *)
Lemma max_drawdown_of_shape c1 cs :
  0 < c1 ->
  Forall finite cs ->
  exists q, max_drawdown_of (NaN :: Fin c1 :: cs) = Fin q /\ q <= 0 /\
            (nondecreasing (NaN :: Fin c1 :: cs) -> q == 0).
Proof.
  intros Hc Hfin.
  unfold max_drawdown_of, nanmin, drawdown, expanding_max.
  change (zip_with (fun c m => (c - m) / m)%F) with (zip_with drop).
  cbn [expanding_max_from zip_with fold_left].
  change (fmax NaN NaN) with NaN.
  change (fmax NaN (Fin c1)) with (Fin c1).
  change (fmin NaN (drop NaN NaN)) with NaN.
  rewrite (drop_Fin _ _ Hc).
  change (fmin NaN (Fin ((c1 + - c1) / c1))) with (Fin ((c1 + - c1) / c1)).
  assert ((c1 + - c1) / c1 == 0) as Hd by (field; lra).
  destruct (nanmin_nonpositive
              (zip_with drop cs (expanding_max_from (Fin c1) cs))
              ((c1 + - c1) / c1)) as (q & Eq & Hq).
  { lra. }
  { now apply drawdown_nonpositive. }
  rewrite Eq. exists (q * 100). split; [reflexivity|]. split; [lra|].
  intros Hmono. apply nondecreasing_tail in Hmono.
  destruct (nanmin_zero
              (zip_with drop cs (expanding_max_from (Fin c1) cs))
              ((c1 + - c1) / c1)) as (q' & Eq' & Hq').
  { exact Hd. }
  { apply drawdown_zero; auto.
    - now apply nondecreasing_head.
    - apply nondecreasing_sorted. eapply nondecreasing_tail; eauto. }
  rewrite Eq in Eq'. injection Eq' as ->. lra.
Qed.

Lemma position_of_head sig : hd 0%Z sig = 0%Z -> hd 0%Z (position_of sig) = 0%Z.
Proof. destruct sig as [|s sig]; simpl; [auto|]. now intros ->. Qed.

Lemma strategy_return_of_cons z zs m ms :
  strategy_return_of (z :: zs) (m :: ms)
  = (NaN * m)%F
      :: zip_with mul (map of_opt (shift_from (Some z) (map Some zs))) ms.
Proof. reflexivity. Qed.

Lemma cumulative_nan rs :
  cumulative (NaN :: rs)
  = NaN :: cumprod_from (Fin 1) (map (fun r => Fin 1 + r)%F rs).
Proof. reflexivity. Qed.

(** With positive prices and no signal at the first bar, the cumulative
    strategy column starts undefined, is 1 at the second bar and stays
    finite. *)
Lemma cumulative_shape sig prices :
  Forall positive_price prices ->
  (2 <= length prices)%nat ->
  length sig = length prices ->
  hd 0%Z sig = 0%Z ->
  exists c1 cs,
    cumulative (strategy_return_of (position_of sig) (pct_change prices))
    = NaN :: Fin c1 :: cs /\ c1 == 1 /\ Forall finite cs.
Proof.
  intros Hpos Hlen Hsig Hhd.
  pose proof (position_of_head sig Hhd) as Hp0.
  pose proof (position_of_length sig) as Lp. rewrite Hsig in Lp.
  destruct (position_of sig) as [|z0 [|z1 zs]]; simpl in Lp; try lia.
  simpl in Hp0. subst z0.
  destruct prices as [|x0 [|x1 xs]]; simpl in Hlen; try lia.
  apply Forall_cons_iff in Hpos as [(p0 & -> & Hp0) Hpos].
  pose proof (pct_tail_finite _ _ Hp0 Hpos) as Hfin.
  rewrite pct_change_head.
  destruct (zip_with _ (x1 :: xs) _) as [|m1 ms] eqn:T; [discriminate T|].
  apply Forall_cons_iff in Hfin as [(q1 & ->) Hms].
  rewrite strategy_return_of_cons. simpl (NaN * NaN)%F.
  rewrite cumulative_nan.
  cbn [map shift_from zip_with of_opt].
  change (map of_opt (shift_from (Some 0%Z) (Some z1 :: map Some zs)))
    with (of_Z 0 :: map of_opt (shift_from (Some z1) (map Some zs))).
  cbn [zip_with map].
  change (of_Z 0 * Fin q1)%F with (Fin (inject_Z 0 * q1)).
  change (Fin 1 + Fin (inject_Z 0 * q1))%F with (Fin (1 + inject_Z 0 * q1)).
  cbn [cumprod_from is_nan].
  change (Fin 1 * Fin (1 + inject_Z 0 * q1))%F
    with (Fin (1 * (1 + inject_Z 0 * q1))).
  eexists _, _. split; [reflexivity|]. split.
  - unfold inject_Z. ring.
  - apply cumprod_from_finite, one_plus_finite, mul_zip_finite; auto.
    apply shifted_positions_integral.
Qed.

(* ================================================================== *)
(** ** Sums over a constant column                                     *)
(* ================================================================== *)

Lemma all_eq_finite k ys : all_eq k ys -> Forall finite ys.
Proof.
  apply Forall_impl. intros y (q & -> & _). now exists q.
Qed.

Lemma fsum_all_eq k ys a :
  all_eq k ys ->
  exists s, fold_left add ys (Fin a) = Fin s /\
            s == a + inject_Z (Z.of_nat (length ys)) * k.
Proof.
  intros H. revert a.
  induction H as [|y ys (q & -> & Hq) _ IH]; intros a.
  - exists a. split; [reflexivity|]. simpl. unfold inject_Z. ring.
  - cbn [fold_left add length].
    destruct (IH (a + q)) as (s & -> & Hs). exists s. split; [reflexivity|].
    rewrite Hs, Hq, Nat2Z.inj_succ. unfold Z.succ.
    rewrite inject_Z_plus. ring.
Qed.

Lemma div_by_count s n :
  (0 < n)%Z ->
  (Fin s / of_Z n)%F = Fin (s / inject_Z n).
Proof.
  intros H. unfold of_Z. simpl.
  rewrite positive_pos; [reflexivity|].
  change 0 with (inject_Z 0). now rewrite <- Zlt_Qlt.
Qed.

(* ================================================================== *)
(** ** A backtest without trades                                       *)
(* ================================================================== *)

Lemma count_trades_zero sig :
  count_trades sig = 0%nat -> Forall (fun z => z = 0%Z) sig.
Proof.
  unfold count_trades. induction sig as [|z sig IH]; simpl; intros H.
  - constructor.
  - destruct (Z.eqb_spec z 0); simpl in H; [|discriminate].
    constructor; auto.
Qed.

Lemma cumsum_from_zero sig :
  Forall (fun z => z = 0%Z) sig ->
  Forall (fun z => z = 0%Z) (cumsum_from 0 (replace (-1) 0 sig)).
Proof.
  induction 1 as [|z sig -> _ IH]; simpl; constructor; auto.
Qed.

Lemma shifted_zero zs :
  Forall (fun z => z = 0%Z) zs ->
  Forall (fun x => x = of_Z 0)
         (map of_opt (shift_from (Some 0%Z) (map Some zs))).
Proof.
  induction 1 as [|z zs -> _ IH]; simpl; constructor; auto.
Qed.

Lemma mul_zero_finite xs ys :
  Forall (fun x => x = of_Z 0) xs ->
  Forall finite ys ->
  all_eq 0 (zip_with mul xs ys).
Proof.
  intros Hx. revert ys.
  induction Hx as [|x xs -> _ IH]; intros ys Hy; simpl.
  - constructor.
  - destruct Hy as [|y ys (q & ->) Hy]; constructor.
    + eexists. split; [reflexivity|]. unfold inject_Z. ring.
    + now apply IH.
Qed.

(** Without a trade, over positive prices, the strategy returns after
    the first bar are all 0. *)
Lemma strategy_return_flat sig x0 xs :
  Forall positive_price (x0 :: xs) ->
  length sig = S (length xs) ->
  count_trades sig = 0%nat ->
  exists rs, strategy_return_of (position_of sig) (pct_change (x0 :: xs))
             = NaN :: rs /\
             all_eq 0 rs /\ length rs = length xs.
Proof.
  intros Hpos Hlen Hc.
  pose proof (cumsum_from_zero sig (count_trades_zero sig Hc)) as Hz.
  fold (cumsum (replace (-1) 0 sig)) in Hz. fold (position_of sig) in Hz.
  pose proof (position_of_length sig) as Lp. rewrite Hlen in Lp.
  destruct (position_of sig) as [|z0 zs]; [discriminate Lp|].
  apply Forall_cons_iff in Hz as [-> Hz].
  apply Forall_cons_iff in Hpos as [(p0 & -> & Hp0) Hpos].
  pose proof (pct_tail_finite _ _ Hp0 Hpos) as Hfin.
  rewrite pct_change_head, strategy_return_of_cons.
  eexists. split; [reflexivity|]. split.
  - apply mul_zero_finite; auto. now apply shifted_zero.
  - rewrite zip_with_length, length_map, shift_from_length, length_map,
      zip_with_length, shift_from_length.
    simpl in Lp. lia.
Qed.

(** Fewer than two defined returns: the deviation is undefined and so is
    the Sharpe ratio. *)
Lemma dropna_excess_length sr :
  length (dropna (excess_returns sr)) = length (dropna sr).
Proof.
  induction sr as [|x sr IH]; [reflexivity|].
  destruct x; simpl; unfold dropna in *; simpl; now rewrite ?IH.
Qed.

Lemma sharpe_of_undefined sq sr :
  (length (dropna sr) <= 1)%nat -> sharpe_of sq sr = NaN.
Proof.
  intros H. unfold sharpe_of, std, var.
  rewrite dropna_excess_length.
  destruct (Nat.leb_spec (length (dropna sr)) 1); [|lia].
  change (sqrt sq NaN) with NaN.
  change (neb NaN (Fin 0)) with true. cbv iota.
  now destruct (sqrt sq (Fin 252) * mean (excess_returns sr))%F.
Qed.

(* ================================================================== *)
(** ** What the position and the signal can be                         *)
(* ================================================================== *)

Lemma cumsum_from_S acc xs t z x :
  nth_error (cumsum_from acc xs) t = Some z ->
  nth_error xs (S t) = Some x ->
  nth_error (cumsum_from acc xs) (S t) = Some (z + x)%Z.
Proof.
  revert acc t; induction xs as [|y xs IH]; intros acc t Hz Hx;
    [destruct t; discriminate|].
  destruct t as [|t].
  - simpl in Hz. injection Hz as <-.
    destruct xs as [|y' xs]; [discriminate|].
    simpl in Hx. injection Hx as ->. reflexivity.
  - simpl in Hz, Hx |- *. now apply IH.
Qed.

(** From one bar to the next the position moves by the signal, except
    that a signal of exactly -1 leaves it where it is. *)
Lemma position_step sig t z s :
  nth_error (position_of sig) t = Some z ->
  nth_error sig (S t) = Some s ->
  nth_error (position_of sig) (S t)
  = Some (z + (if (s =? -1)%Z then 0 else s))%Z.
Proof.
  intros Hz Hs. unfold position_of, cumsum in *.
  apply cumsum_from_S; auto.
  unfold replace. now rewrite nth_error_map, Hs.
Qed.

(** The first difference of a state in {-1, 0, 1} lies in {-2, ..., 2}. *)
Lemma crossover_range st z :
  Forall (fun s => (-1 <= s <= 1)%Z) st ->
  In z (crossover st) -> (-2 <= z <= 2)%Z.
Proof.
  intros Hst Hz. apply In_nth_error in Hz as [t Ht].
  unfold crossover, fillna, diff_int in Ht.
  rewrite nth_error_map, zip_with_nth_error in Ht.
  destruct (nth_error st t) as [x|] eqn:Hx; [|discriminate].
  destruct (nth_error (shift_int st) t) as [o|] eqn:Ho; [|discriminate].
  simpl in Ht. injection Ht as <-.
  assert (-1 <= x <= 1)%Z as Bx.
  { rewrite Forall_forall in Hst. eapply Hst, nth_error_In; eauto. }
  destruct o as [p|]; simpl; [|lia].
  assert (-1 <= p <= 1)%Z as Bp.
  { unfold shift_int in Ho. destruct t as [|t].
    - destruct st; discriminate.
    - rewrite shift_from_nth_error_S, !nth_error_map in Ho.
      destruct (nth_error st (S t)); [|discriminate].
      destruct (nth_error st t) as [p'|] eqn:Hp; [|discriminate].
      simpl in Ho. injection Ho as ->.
      rewrite Forall_forall in Hst. eapply Hst, nth_error_In; eauto. }
  lia.
Qed.

(* ================================================================== *)
(** ** Parameter validation                                            *)
(* ================================================================== *)

(** C4, as stated, fails: parameter sets the specification calls invalid
    (short window not below the long one, a zero period with the
    thresholds the wrong way round) are accepted by the constructors,
    and a backtest on such an object returns a result. *)
Lemma C4_counterexample :
  invalid_parameters (SMA 200 50) /\
  invalid_parameters (RSI 0 70 30) /\
  construct (bars [100; 101]) (SMA 200 50)
  = inr (init (bars [100; 101]) (SMA 200 50)) /\
  construct (bars [100; 101]) (RSI 0 70 30)
  = inr (init (bars [100; 101]) (RSI 0 70 30)) /\
  (exists out,
     backtest sqrt_floor (init (bars [100; 101]) (SMA 200 50)) 100000
     = inr out).
Proof.
  repeat split.
  - simpl. unfold invalid_sma. lia.
  - simpl. unfold invalid_rsi. left. lia.
  - eexists. vm_compute. reflexivity.
Qed.

(** C4 (amended): no constructor validates anything.  Construction
    succeeds for every parameter set and stores it as given.  The only
    parameters that are ever refused are negative windows or periods,
    and they are refused later, by the rolling-window computation, when
    signals are generated (a [ValueError]); every other parameter set,
    including a zero window, [short_window >= long_window] and
    [oversold >= overbought], generates a signal column. *)
Theorem C4_construction_never_rejects (frame : list Bar) (p : parameters) :
  construct frame p = inr (init frame p) /\
  match generate_signals (init frame p) with
  | inl e => e = ValueError /\ negative_window p = true
  | inr s => negative_window p = false /\
             params s = p /\
             signal (signals s) = signal_of p (map Close frame)
  end.
Proof.
  split.
  - destruct p; reflexivity.
  - unfold generate_signals. cbn [params init signals].
    destruct (negative_window p) eqn:N.
    + rewrite generate_frame_negative by assumption. simpl. auto.
    + match goal with |- context [generate_frame p ?df] =>
        destruct (generate_frame_ok p df N) as (df' & -> & Hs & _)
      end.
      simpl. rewrite Hs. auto.
Qed.

(* ================================================================== *)
(** ** The current signal                                              *)
(* ================================================================== *)

(** C10, on the code: a freshly constructed SMA(1,2) strategy over the
    closes 2, 1.  Generating its signals gives a death cross (-1) at the
    last bar, but [get_current_signal] does not generate: its guard
    tests the number of rows of the frame, which is 2, so it reads the
    constructor's zero column, answers HOLD and leaves the object as it
    was. *)
Theorem C10_current_signal_skips_generation :
  (exists s, generate_signals (init (bars [2; 1]) (SMA 1 2)) = inr s /\
             signal (signals s) = [0; -1]%Z /\
             signal_map_get (-1) = SELL) /\
  get_current_signal (init (bars [2; 1]) (SMA 1 2))
  = inr (init (bars [2; 1]) (SMA 1 2),
         {| cs_signal := HOLD; cs_price := Fin 1; cs_date := 1 |}).
Proof.
  split.
  - eexists. split; [vm_compute; reflexivity|]. split; reflexivity.
  - vm_compute. reflexivity.
Qed.

(* ================================================================== *)
(** ** The signal contract and the position                            *)
(* ================================================================== *)

(** C3, on the code: a direct crossover moves the raw trend state from
    -1 to +1, and its first difference is +2.  SMA(1,2) over the closes
    2, 1, 2 and Combined(1,3,1,30,70) over 1, 10, 9 both emit a signal of
    2 at the last bar. *)
Theorem C3_signal_of_two :
  (exists s, generate_signals (init (bars [2; 1; 2]) (SMA 1 2)) = inr s /\
             signal (signals s) = [0; -1; 2]%Z) /\
  (exists s, generate_signals
               (init (bars [1; 10; 9]) (Combined 1 3 1 30 70)) = inr s /\
             signal (signals s) = [0; -1; 2]%Z).
Proof.
  split; eexists; (split; [vm_compute; reflexivity | reflexivity]).
Qed.

(** C1, on the code: SMA(1,2) over the closes 1, 2, 1.  The signals are
    0, +1, -2; only a signal of exactly -1 is replaced by 0, so the
    running sum is 0, 1, -1: the position is negative at the last bar. *)
Theorem C1_position_negative :
  exists self r,
    backtest sqrt_floor (init (bars [1; 2; 1]) (SMA 1 2)) 100000
    = inr (self, r) /\
    signal (signals_df r) = [0; 1; -2]%Z /\
    position (signals_df r) = [0; 1; -1]%Z.
Proof.
  do 2 eexists. split; [vm_compute; reflexivity|]. split; reflexivity.
Qed.

(** The same defect on the other side: RSI(1,30,70) over 3, 2, 3, 2, 3, 2
    buys twice (position 2) and its sells never bring the position
    back to 0. *)
Example position_of_two :
  exists self r,
    backtest sqrt_floor (init (bars [2; 3; 2; 3; 2; 3; 2]) (RSI 1 30 70))
             100000
    = inr (self, r) /\
    signal (signals_df r) = [0; 0; 1; -1; 1; -1; 1]%Z /\
    position (signals_df r) = [0; 0; 1; 1; 2; 2; 3]%Z.
Proof.
  do 2 eexists. split; [vm_compute; reflexivity|]. split; reflexivity.
Qed.

(* ================================================================== *)
(** ** The RSI strategy is edge-triggered                              *)
(* ================================================================== *)

(** C6: [RSIStrategy.generate_signals] returns for every period that is
    not negative, and in the frame it produces the signal is +1 exactly
    at the bars where the RSI moves from [>= oversold] at the previous
    bar to [< oversold], and -1 exactly at the bars where it moves from
    [<= overbought] to [> overbought].  Hence a run of consecutive bars
    with the RSI below [oversold] carries at most one +1, and a run of
    [k + 1] such bars that follows a bar with the RSI at or above
    [oversold] carries exactly one (for five bars: the last statement at
    [k = 4]). *)
Theorem C6_rsi_edge_triggered (n : Z) (os ob : Q) (df : DataFrame) :
  (0 <= n)%Z ->
  exists df',
    generate_frame (RSI n os ob) df = inr df' /\
    compute_rsi n (price df) = inr (rsi df') /\
    (forall t, nth_error (signal df') t = Some 1%Z
               <-> enters_oversold os (rsi df') t) /\
    (forall t, nth_error (signal df') t = Some (-1)%Z
               <-> enters_overbought ob (rsi df') t) /\
    (forall t k,
        (forall i, (i < k)%nat -> rsi_at ltb os (rsi df') (t + i)) ->
        (buys_in (signal df') t k <= 1)%nat) /\
    (forall t k,
        rsi_at geb os (rsi df') t ->
        (forall i, (i <= k)%nat -> rsi_at ltb os (rsi df') (S t + i)) ->
        buys_in (signal df') (S t) (S k) = 1%nat).
Proof.
  intros Hn.
  destruct (generate_frame_ok (RSI n os ob) df) as (df' & E & _).
  { simpl. now apply Z.ltb_ge. }
  exists df'. split; [exact E|].
  pose proof (generate_frame_rsi (RSI n os ob) n df df' eq_refl E) as R.
  rewrite (generate_frame_rsi_signal _ _ _ _ _ E).
  split; [exact R|].
  split; [intros t; apply rsi_signal_buy|].
  split; [intros t; apply rsi_signal_sell|].
  split.
  - intros t k. apply buys_in_at_most_one.
  - intros t k. apply buys_in_exactly_one.
Qed.

(** The dip: the RSI stays below 30 for the five bars 2..6 after a bar
    at 100, and exactly one of the five bars carries a +1. *)
Lemma C6_rsi_edge_triggered_witness :
  exists df',
    generate_frame (RSI 1 30 70) (frame_of dip (RSI 1 30 70)) = inr df' /\
    Forall2 feq (rsi df')
      [NaN; Fin 100; Fin 0; Fin 0; Fin 0; Fin 0; Fin 0; Fin 100] /\
    buys_in (signal df') 2 5 = 1%nat.
Proof.
  destruct (C6_rsi_edge_triggered 1 30 70 (frame_of dip (RSI 1 30 70))
              ltac:(lia))
    as (df' & E & _ & _ & _ & _ & H).
  assert (generate_frame (RSI 1 30 70) (frame_of dip (RSI 1 30 70))
          = inr (generated dip (RSI 1 30 70))) as E0
      by (vm_compute; reflexivity).
  rewrite E0 in E. injection E as <-.
  exists (generated dip (RSI 1 30 70)).
  split; [exact E0|].
  split; [vm_compute; repeat constructor|].
  apply H.
  - eexists. split; vm_compute; reflexivity.
  - intros i Hi.
    do 5 (destruct i as [|i];
          [eexists; split; vm_compute; reflexivity|]).
    lia.
Defined.

(* ================================================================== *)
(** ** The raw state of the combined strategy                          *)
(* ================================================================== *)

(** C5, as stated, fails.  Combined(1,2,2,30,50) over the closes 11, 10,
    11: at the last bar the SMA condition is bullish and the RSI is
    exactly 50, the overbought threshold; the raw state is 0 and the
    emitted signal is +1.  And no input at all has a raw state of -1 at
    a bar with a bullish SMA condition and the RSI exactly at
    [overbought]: the sell rule compares with [>]. *)
Lemma C5_counterexample :
  (nth_error (short_ma (generated [11; 10; 11] (Combined 1 2 2 30 50))) 2
   = Some (Fin 11) /\
   nth_error (long_ma (generated [11; 10; 11] (Combined 1 2 2 30 50))) 2
   = Some (Fin (21 # 2)) /\
   (exists x,
      nth_error (rsi (generated [11; 10; 11] (Combined 1 2 2 30 50))) 2
      = Some (Fin x) /\ x == 50) /\
   signal (generated [11; 10; 11] (Combined 1 2 2 30 50)) = [0; -1; 1]%Z) /\
  ~ (exists s l n os ob df df' t sm lm x,
        generate_frame (Combined s l n os ob) df = inr df' /\
        nth_error (short_ma df') t = Some sm /\
        nth_error (long_ma df') t = Some lm /\
        nth_error (rsi df') t = Some x /\
        (sm >? lm)%F = true /\
        (x =~ Fin ob)%F /\
        nth_error (combined_state os ob (short_ma df') (long_ma df') (rsi df'))
                  t = Some (-1)%Z).
Proof.
  split.
  - split; [vm_compute; reflexivity|].
    split; [vm_compute; reflexivity|].
    split; [eexists; split; [vm_compute; reflexivity | reflexivity]|].
    vm_compute; reflexivity.
  - intros (s & l & n & os & ob & df & df' & t & sm & lm & x
            & _ & Hs & Hl & Hr & Hb & Hx & Hst).
    rewrite (combined_state_entry os ob _ _ _ _ _ _ _ Hs Hl Hr) in Hst.
    rewrite (sell_rule_at_threshold _ _ _ _ Hb Hx) in Hst.
    destruct (buy_rule os sm lm x); discriminate.
Qed.

(** C5 (amended): [CombinedStrategy.generate_signals] returns whenever
    no window is negative, and in the frame it produces the signal is
    the first difference of a raw state that is -1 exactly where
    short MA < long MA or RSI > overbought, +1 exactly where that rule
    fails and short MA > long MA and RSI < oversold, and 0 elsewhere.
    The comparison with [overbought] is strict: with a bullish SMA
    condition and the RSI exactly at [overbought] the sell rule does not
    hold.  With the RSI strictly above [overbought] it does, bullish
    trend or not: for Combined(1,2,1,30,70) over the closes 1, 2, 3 the
    SMA condition at bar 1 is bullish, the RSI is 100, the raw state is
    -1 and a sell signal is emitted. *)
Theorem C5_combined_rules (s l n : Z) (os ob : Q) (df : DataFrame) :
  negative_window (Combined s l n os ob) = false ->
  exists df',
    generate_frame (Combined s l n os ob) df = inr df' /\
    signal df'
    = crossover (combined_state os ob (short_ma df') (long_ma df') (rsi df')) /\
    (forall t sm lm x,
        nth_error (short_ma df') t = Some sm ->
        nth_error (long_ma df') t = Some lm ->
        nth_error (rsi df') t = Some x ->
        nth_error (combined_state os ob (short_ma df') (long_ma df') (rsi df'))
                  t
        = Some (if sell_rule ob sm lm x then (-1)%Z
                else if buy_rule os sm lm x then 1%Z else 0%Z) /\
        ((sm >? lm)%F = true -> (x =~ Fin ob)%F ->
         sell_rule ob sm lm x = false)) /\
    (exists sm lm x,
        nth_error (short_ma (generated [1; 2; 3] (Combined 1 2 1 30 70))) 1
        = Some sm /\
        nth_error (long_ma (generated [1; 2; 3] (Combined 1 2 1 30 70))) 1
        = Some lm /\
        nth_error (rsi (generated [1; 2; 3] (Combined 1 2 1 30 70))) 1
        = Some x /\
        (sm >? lm)%F = true /\ (x >? Fin 70)%F = true /\
        buy_rule 30 sm lm x = false /\ sell_rule 70 sm lm x = true /\
        signal (generated [1; 2; 3] (Combined 1 2 1 30 70)) = [0; -1; 0]%Z).
Proof.
  intros N.
  destruct (generate_frame_ok _ df N) as (df' & E & _).
  exists df'. split; [exact E|].
  destruct (generate_frame_combined _ _ _ _ _ _ _ E) as (_ & _ & Hsig).
  split; [exact Hsig|]. split.
  - intros t sm lm x Hs Hl Hr. split.
    + now apply combined_state_entry.
    + apply sell_rule_at_threshold.
  - do 3 eexists.
    repeat (split; [vm_compute; reflexivity|]). vm_compute; reflexivity.
Qed.

(** Combined(1,2,2,30,50) over 11, 10, 11: at bar 2 neither rule holds
    and the raw state is 0. *)
Lemma C5_combined_rules_witness :
  exists df',
    generate_frame (Combined 1 2 2 30 50)
      (frame_of [11; 10; 11] (Combined 1 2 2 30 50)) = inr df' /\
    nth_error (combined_state 30 50 (short_ma df') (long_ma df') (rsi df')) 2
    = Some 0%Z.
Proof.
  destruct (C5_combined_rules 1 2 2 30 50
              (frame_of [11; 10; 11] (Combined 1 2 2 30 50)) eq_refl)
    as (df' & E & _ & H & _).
  assert (generate_frame (Combined 1 2 2 30 50)
            (frame_of [11; 10; 11] (Combined 1 2 2 30 50))
          = inr (generated [11; 10; 11] (Combined 1 2 2 30 50))) as E0
      by (vm_compute; reflexivity).
  rewrite E0 in E. injection E as <-.
  eexists. split; [exact E0|].
  rewrite (proj1 (H 2%nat (Fin 11) (Fin (21 # 2)) (Fin (200 # 4))
                    ltac:(vm_compute; reflexivity)
                    ltac:(vm_compute; reflexivity)
                    ltac:(vm_compute; reflexivity))).
  reflexivity.
Defined.

(* ================================================================== *)
(** ** The RSI where there are no losses                               *)
(* ================================================================== *)

(** C7, as stated, fails: over three bars at 100 the RSI(2) window is
    complete at bar 2, the average loss there is exactly 0, and the RSI
    is undefined, not 100. *)
Lemma C7_counterexample :
  exists loss l,
    avg_loss 2 (price (frame_of [100; 100; 100] (RSI 2 30 70))) = inr loss /\
    nth_error loss 2 = Some (Fin l) /\ l == 0 /\
    nth_error (rsi (generated [100; 100; 100] (RSI 2 30 70))) 2 = Some NaN /\
    nth_error (rsi (generated [100; 100; 100] (Combined 1 2 2 30 70))) 2
    = Some NaN.
Proof.
  do 2 eexists.
  split; [vm_compute; reflexivity|].
  split; [vm_compute; reflexivity|].
  split; [reflexivity|].
  split; vm_compute; reflexivity.
Qed.

(** C7 (amended): there is no special case for an average loss of 0; the
    value comes from the division itself.  In the frame produced by
    [RSIStrategy] or [CombinedStrategy], at a bar where the rolling
    average loss is exactly 0 (so the window is complete) the RSI is 100
    when the rolling average gain is positive, and undefined (NaN) when
    the average gain is 0 as well. *)
Theorem C7_rsi_zero_loss (p : parameters) (n : Z) (df : DataFrame) :
  rsi_period_of p = Some n ->
  negative_window p = false ->
  exists df' gain loss,
    generate_frame p df = inr df' /\
    avg_gain n (price df) = inr gain /\
    avg_loss n (price df) = inr loss /\
    forall t g l,
      nth_error gain t = Some (Fin g) ->
      nth_error loss t = Some (Fin l) ->
      l == 0 ->
      (0 < g -> exists x, nth_error (rsi df') t = Some (Fin x) /\ x == 100) /\
      (g == 0 -> nth_error (rsi df') t = Some NaN).
Proof.
  intros Hp N.
  destruct (generate_frame_ok p df N) as (df' & E & _).
  pose proof (generate_frame_rsi p n df df' Hp E) as R.
  unfold compute_rsi in R.
  destruct (avg_gain n (price df)) as [e|gain]; [discriminate R|].
  destruct (avg_loss n (price df)) as [e|loss]; [discriminate R|].
  exists df', gain, loss. repeat (split; [reflexivity || exact E|]).
  intros t g l Hg Hl Hz.
  simpl in R. injection R as R. rewrite <- R.
  rewrite nth_error_map, zip_with_nth_error, Hg, Hl. simpl.
  rewrite (positive_zero _ Hz).
  split.
  - intros Hpos. rewrite (positive_pos _ Hpos). simpl.
    eexists. split; [reflexivity|]. lra.
  - intros Hzero. rewrite (positive_zero _ Hzero). reflexivity.
Qed.

(** Rising closes 100, 101, 102 with period 2: no loss in the window at
    bar 2, an average gain of 1, and an RSI of 100. *)
Lemma C7_rsi_zero_loss_witness :
  exists df',
    generate_frame (RSI 2 30 70) (frame_of [100; 101; 102] (RSI 2 30 70))
    = inr df' /\
    exists x, nth_error (rsi df') 2 = Some (Fin x) /\ x == 100.
Proof.
  destruct (C7_rsi_zero_loss (RSI 2 30 70) 2
              (frame_of [100; 101; 102] (RSI 2 30 70)) eq_refl eq_refl)
    as (df' & gain & loss & E & Eg & El & H).
  exists df'. split; [exact E|].
  assert (avg_gain 2 (price (frame_of [100; 101; 102] (RSI 2 30 70)))
          = inr [NaN; Fin (1 # 2); Fin (2 # 2)]) as Eg0
      by (vm_compute; reflexivity).
  assert (avg_loss 2 (price (frame_of [100; 101; 102] (RSI 2 30 70)))
          = inr [NaN; Fin (0 # 2); Fin (0 # 2)]) as El0
      by (vm_compute; reflexivity).
  rewrite Eg0 in Eg. injection Eg as <-.
  rewrite El0 in El. injection El as <-.
  apply (proj1 (H 2%nat (2 # 2) (0 # 2) eq_refl eq_refl
                  ltac:(reflexivity))).
  reflexivity.
Defined.

(* ================================================================== *)
(** ** Returns lag the position by one bar                             *)
(* ================================================================== *)

(** C2: [backtest] returns for every object whose windows pandas accepts
    and whose price column is not empty, and in the frame it returns the
    market return and the strategy return are undefined (NaN) at the
    first bar, and at every bar [t + 1] whose price and whose
    predecessor's price are finite the market return is
    [price(t+1) / price(t) - 1], that is
    [(price(t+1) - price(t)) / price(t)], and the strategy return is the
    position of bar [t], not that of bar [t + 1], times that market
    return. *)
Theorem C2_strategy_return_lags (sq : Q -> Q) (self : TradingStrategy)
    (initial_capital : Q) :
  negative_window (params self) = false ->
  price (signals self) <> [] ->
  exists self' r,
    backtest sq self initial_capital = inr (self', r) /\
    price (signals_df r) = price (signals self) /\
    nth_error (market_return (signals_df r)) 0 = Some NaN /\
    nth_error (strategy_return (signals_df r)) 0 = Some NaN /\
    forall t a b,
      nth_error (price (signals_df r)) t = Some (Fin a) ->
      nth_error (price (signals_df r)) (S t) = Some (Fin b) ->
      exists pos mr,
        nth_error (position (signals_df r)) t = Some pos /\
        nth_error (market_return (signals_df r)) (S t) = Some mr /\
        mr = (Fin b / Fin a - Fin 1)%F /\
        (mr =~ (Fin b - Fin a) / Fin a)%F /\
        nth_error (strategy_return (signals_df r)) (S t)
        = Some (of_Z pos * mr)%F.
Proof.
  intros N P.
  destruct (backtest_returns sq self initial_capital N P) as (self' & r & E).
  exists self', r. split; [exact E|].
  destruct (backtest_inv _ _ _ _ _ E) as (df1 & G & -> & _).
  destruct (generate_frame_inv _ _ _ G) as (_ & Hs & Hp & _).
  unfold backtest_frame; cbn [price market_return strategy_return position].
  rewrite Hp.
  assert (length (position_of (signal df1)) = length (price (signals self)))
    as Lpos by now rewrite position_of_length, Hs, signal_of_length.
  destruct (price (signals self)) as [|x xs] eqn:Px; [contradiction|].
  split; [reflexivity|].
  assert (nth_error (pct_change (x :: xs)) 0 = Some NaN) as M0
      by now rewrite pct_change_head.
  split; [exact M0|].
  split.
  { eapply strategy_return_of_0; [|exact M0].
    intros C; rewrite C in Lpos; discriminate. }
  intros t a b H0 H1.
  assert (S t < length (position_of (signal df1)))%nat as Lt.
  { rewrite Lpos. apply nth_error_Some. congruence. }
  destruct (nth_error (position_of (signal df1)) t) as [z|] eqn:Hz.
  2:{ apply nth_error_None in Hz. lia. }
  exists z, (Fin b / Fin a - Fin 1)%F.
  split; [reflexivity|].
  split; [now apply pct_change_S|].
  split; [reflexivity|].
  split; [apply pct_formula|].
  apply strategy_return_of_S; auto. now apply pct_change_S.
Qed.

(** A +100% jump at the bar where the position is opened: the position
    entering bar 2 is 0, and that is what the jump is multiplied by. *)
Lemma C2_strategy_return_lags_witness :
  exists self' r,
    backtest sqrt_floor (init (bars [100; 100; 200]) (SMA 1 2)) 100000
    = inr (self', r) /\
    exists pos mr,
      nth_error (position (signals_df r)) 1 = Some pos /\
      (mr =~ (Fin 200 - Fin 100) / Fin 100)%F /\
      nth_error (strategy_return (signals_df r)) 2 = Some (of_Z pos * mr)%F.
Proof.
  destruct (C2_strategy_return_lags sqrt_floor
              (init (bars [100; 100; 200]) (SMA 1 2)) 100000
              eq_refl ltac:(discriminate))
    as (self' & r & E & Hp & _ & _ & H).
  exists self', r. split; [exact E|].
  destruct (H 1%nat 100 200
              ltac:(rewrite Hp; reflexivity) ltac:(rewrite Hp; reflexivity))
    as (pos & mr & H1 & _ & _ & H2 & H3).
  exists pos, mr. split; [exact H1|]. split; [exact H2 | exact H3].
Defined.

(* ================================================================== *)
(** ** Maximum drawdown                                                *)
(* ================================================================== *)

(** C9, as stated, fails: on a series of one bar every return is
    undefined, so is the drawdown column, and the maximum drawdown
    returned is NaN, which is not [<= 0]. *)
Lemma C9_counterexample :
  exists self' r,
    backtest sqrt_floor (init (bars [100]) (SMA 50 200)) 100000
    = inr (self', r) /\
    cumulative_strategy (signals_df r) = [NaN] /\
    max_drawdown r = NaN /\
    (max_drawdown r <=? Fin 0)%F = false.
Proof.
  do 2 eexists. split; [vm_compute; reflexivity|].
  repeat split; reflexivity.
Qed.

(** Two bars are not enough without positive prices: over the closes
    0, 0 the result is NaN as well. *)
Example max_drawdown_zero_prices :
  exists self' r,
    backtest sqrt_floor (init (bars [0; 0]) (SMA 50 200)) 100000
    = inr (self', r) /\
    max_drawdown r = NaN.
Proof.
  do 2 eexists. split; [vm_compute; reflexivity|]. reflexivity.
Qed.

(** C9 (amended): for every object whose windows pandas accepts and
    whose price column has at least two bars, all finite and positive,
    [backtest] returns, and the maximum drawdown it returns is the
    minimum over the bars of
    [(cumulative(t) - running_max(t)) / running_max(t)] in percent, is
    a number [<= 0], and is 0 when the cumulative strategy column never
    decreases. *)
Theorem C9_max_drawdown (sq : Q -> Q) (self : TradingStrategy)
    (initial_capital : Q) :
  negative_window (params self) = false ->
  Forall positive_price (price (signals self)) ->
  (2 <= length (price (signals self)))%nat ->
  exists self' r,
    backtest sq self initial_capital = inr (self', r) /\
    max_drawdown r = max_drawdown_pct (cumulative_strategy (signals_df r)) /\
    exists q,
      max_drawdown r = Fin q /\ q <= 0 /\
      (nondecreasing (cumulative_strategy (signals_df r)) -> q == 0).
Proof.
  intros N Hpos Hlen.
  destruct (backtest_returns sq self initial_capital N) as (self' & r & E).
  { intros C. rewrite C in Hlen. simpl in Hlen. lia. }
  exists self', r. split; [exact E|].
  destruct (backtest_inv _ _ _ _ _ E) as (df1 & G & Hdf & _ & _ & Hmd & _).
  rewrite Hmd. split; [apply max_drawdown_of_spec|].
  destruct (generate_frame_inv _ _ _ G) as (_ & Hs & Hp & _).
  rewrite Hdf. unfold backtest_frame; cbn [cumulative_strategy].
  rewrite Hp.
  destruct (cumulative_shape (signal df1) (price (signals self)))
    as (c1 & cs & -> & Hc1 & Hfin); auto.
  - now rewrite Hs, signal_of_length.
  - rewrite Hs. apply signal_of_head.
  - apply max_drawdown_of_shape; auto. lra.
Qed.

(** SMA(1,2) over 100, 110, 99, 120: bought at bar 1, the strategy
    loses 10% at bar 2. *)
Lemma C9_max_drawdown_witness :
  exists self' r,
    backtest sqrt_floor (init (bars [100; 110; 99; 120]) (SMA 1 2)) 100000
    = inr (self', r) /\
    exists q, max_drawdown r = Fin q /\ q <= 0.
Proof.
  destruct (C9_max_drawdown sqrt_floor
              (init (bars [100; 110; 99; 120]) (SMA 1 2)) 100000)
    as (self' & r & E & _ & q & Hq & Hle & _).
  - reflexivity.
  - repeat constructor; eexists; (split; [reflexivity|]); reflexivity.
  - simpl. lia.
  - exists self', r. split; [exact E|]. exists q. auto.
Defined.
(* ================================================================== *)
(** ** Win rate and Sharpe ratio                                       *)
(* ================================================================== *)

(** The first strategy return is never defined, so a column of [n]
    returns has fewer than [n] defined ones. *)
Lemma strategy_return_defined pos mr :
  (length (dropna (strategy_return_of pos mr))
   <= Nat.pred (length mr))%nat.
Proof.
  destruct pos as [|z zs]; [simpl; lia|].
  destruct mr as [|m ms]; [simpl; lia|].
  rewrite strategy_return_of_cons.
  change (NaN * m)%F with NaN.
  change (dropna (NaN :: ?l)) with (dropna l).
  unfold dropna. etransitivity; [apply filter_length_le|].
  rewrite zip_with_length. simpl. lia.
Qed.

(** On a series of one or two bars every backtest returns an undefined
    Sharpe ratio, whatever the strategy and its parameters: at most one
    return is defined, the sample deviation of at most one number is
    [NaN], [NaN != 0] holds, and the quotient by [NaN] is [NaN]. *)
Lemma sharpe_undefined_on_short_series (sq : Q -> Q)
    (self : TradingStrategy) (initial_capital : Q) :
  negative_window (params self) = false ->
  price (signals self) <> [] ->
  (length (price (signals self)) <= 2)%nat ->
  exists self' r,
    backtest sq self initial_capital = inr (self', r) /\
    sharpe_ratio r = NaN.
Proof.
  intros N P L.
  destruct (backtest_returns sq self initial_capital N P) as (self' & r & E).
  exists self', r. split; [exact E|].
  destruct (backtest_inv _ _ _ _ _ E)
    as (df1 & G & Hdf & _ & _ & _ & Hsh & _).
  destruct (generate_frame_inv _ _ _ G) as (_ & _ & Hp & _).
  rewrite Hsh, Hdf. unfold backtest_frame; cbn [strategy_return].
  apply sharpe_of_undefined.
  etransitivity; [apply strategy_return_defined|].
  rewrite pct_change_length, Hp. lia.
Qed.

(** C8, on the code: [SMAStrategy(data, 50, 200).backtest()] over the
    two closes 100, 101, whichever square root is used.  The backtest
    returns; no bar has a signal, so [total_trades] is 0 and the win
    rate is the fallback 0, as claimed.  Of the two strategy returns
    only the second is defined, so the standard deviation of the excess
    returns is [NaN]; the guard [std() != 0] holds of [NaN], the
    fallback is not taken, and the Sharpe ratio returned is
    [sqrt(252) * mean / NaN], that is [NaN], where the claim has 0 (not
    NaN) whenever [total_trades] is 0. *)
Theorem C8_sharpe_nan_without_trades (sq : Q -> Q) :
  exists self' r,
    backtest sq (init (bars [100; 101]) (SMA 50 200)) 100000
    = inr (self', r) /\
    total_trades r = 0%nat /\
    win_rate r = Fin 0 /\
    length (dropna (strategy_return (signals_df r))) = 1%nat /\
    std sq (excess_returns (strategy_return (signals_df r))) = NaN /\
    neb (std sq (excess_returns (strategy_return (signals_df r)))) (Fin 0)
    = true /\
    sharpe_ratio r = NaN.
Proof.
  do 2 eexists. split; [vm_compute; reflexivity|].
  repeat split; vm_compute; reflexivity.
Qed.

(* ================================================================== *)
(** ** Further properties of the backtest                              *)
(* ================================================================== *)

Lemma iloc_last_map {A B} (f : A -> B) (xs : list A) x :
  iloc_last xs = inr x -> iloc_last (map f xs) = inr (f x).
Proof.
  unfold iloc_last. rewrite <- map_rev.
  destruct (rev xs) as [|y ys]; [discriminate|].
  intros E. injection E as ->. reflexivity.
Qed.

Lemma iloc_last_length {A B} (xs : list A) (ys : list B) x :
  iloc_last xs = inr x -> length ys = length xs ->
  exists y, iloc_last ys = inr y.
Proof.
  intros E L. apply iloc_last_nonempty.
  intros ->. destruct xs; [discriminate E | discriminate L].
Qed.

(** X1.  The frame a backtest returns has one row per bar: the index and the
    price column are those of the object, and the signal, position,
    return, cumulative and portfolio columns all have their length. *)
Theorem backtest_frame_shape (sq : Q -> Q) (self : TradingStrategy)
    (initial_capital : Q) :
  negative_window (params self) = false ->
  price (signals self) <> [] ->
  exists self' r,
    backtest sq self initial_capital = inr (self', r) /\
    signals self' = signals_df r /\
    index (signals_df r) = index (signals self) /\
    price (signals_df r) = price (signals self) /\
    length (signal (signals_df r)) = length (price (signals self)) /\
    length (position (signals_df r)) = length (price (signals self)) /\
    length (market_return (signals_df r)) = length (price (signals self)) /\
    length (strategy_return (signals_df r)) = length (price (signals self)) /\
    length (cumulative_market (signals_df r))
    = length (price (signals self)) /\
    length (cumulative_strategy (signals_df r))
    = length (price (signals self)) /\
    length (portfolio_value (signals_df r)) = length (price (signals self)).
Proof.
  intros N P.
  destruct (backtest_returns sq self initial_capital N P) as (self' & r & E).
  exists self', r. split; [exact E|].
  destruct (backtest_inv _ _ _ _ _ E) as (df1 & G & Hdf & Hself & _).
  destruct (generate_frame_inv _ _ _ G) as (_ & Hs & Hp & Hi).
  split; [exact Hself|].
  rewrite Hdf. unfold backtest_frame.
  cbn [index price signal position market_return strategy_return
       cumulative_market cumulative_strategy portfolio_value].
  rewrite ?length_map, ?cumulative_length, ?strategy_return_of_length,
    ?position_of_length, ?pct_change_length, Hs, signal_of_length, Hp, Hi.
  repeat split; auto; lia.
Qed.

Lemma backtest_frame_shape_witness :
  exists self' r,
    backtest sqrt_floor (init (bars [100; 110; 99; 120]) (SMA 1 2)) 100000
    = inr (self', r) /\
    length (portfolio_value (signals_df r)) = 4%nat.
Proof.
  destruct (backtest_frame_shape sqrt_floor
              (init (bars [100; 110; 99; 120]) (SMA 1 2)) 100000
              eq_refl ltac:(discriminate))
    as (self' & r & E & _ & _ & _ & _ & _ & _ & _ & _ & _ & H).
  exists self', r. split; [exact E | exact H].
Defined.

Lemma count_trades_tail z sig :
  count_trades (z :: sig) = ((if (z =? 0)%Z then 0 else 1) + count_trades sig)%nat.
Proof. unfold count_trades. simpl. now destruct (z =? 0)%Z. Qed.

Lemma count_trades_le sig : (count_trades sig <= length sig)%nat.
Proof. unfold count_trades. apply filter_length_le. Qed.

(** X2.  No strategy signals at the first bar: in the frame a backtest
    returns the signal and the position of bar 0 are 0, and there are
    fewer trades than bars. *)
Theorem first_bar_is_flat (sq : Q -> Q) (self : TradingStrategy)
    (initial_capital : Q) :
  negative_window (params self) = false ->
  price (signals self) <> [] ->
  exists self' r,
    backtest sq self initial_capital = inr (self', r) /\
    nth_error (signal (signals_df r)) 0 = Some 0%Z /\
    nth_error (position (signals_df r)) 0 = Some 0%Z /\
    (total_trades r < length (price (signals self)))%nat.
Proof.
  intros N P.
  destruct (backtest_returns sq self initial_capital N P) as (self' & r & E).
  exists self', r. split; [exact E|].
  destruct (backtest_inv _ _ _ _ _ E)
    as (df1 & G & Hdf & _ & _ & _ & _ & Ht & _).
  destruct (generate_frame_inv _ _ _ G) as (_ & Hs & Hp & _).
  rewrite Ht, Hdf. unfold backtest_frame. cbn [signal position].
  pose proof (signal_of_head (params self) (price (signals self))) as Hh.
  pose proof (signal_of_length (params self) (price (signals self))) as Hl.
  rewrite <- Hs in Hh, Hl.
  pose proof (position_of_head _ Hh) as Hp0.
  pose proof (position_of_length (signal df1)) as Lp.
  destruct (signal df1) as [|z sig].
  { destruct (price (signals self)); [contradiction | discriminate]. }
  simpl in Hh. subst z.
  destruct (position_of (0%Z :: sig)) as [|z0 zs]; [discriminate Lp|].
  simpl in Hp0. subst z0.
  repeat split.
  rewrite count_trades_tail, <- Hl. simpl.
  pose proof (count_trades_le sig). lia.
Qed.

Lemma first_bar_is_flat_witness :
  exists self' r,
    backtest sqrt_floor (init (bars [100; 110; 99; 120]) (SMA 1 2)) 100000
    = inr (self', r) /\
    (total_trades r < 4)%nat.
Proof.
  destruct (first_bar_is_flat sqrt_floor
              (init (bars [100; 110; 99; 120]) (SMA 1 2)) 100000
              eq_refl ltac:(discriminate))
    as (self' & r & E & _ & _ & H).
  exists self', r. split; [exact E | exact H].
Defined.

(** X3.  The call pattern of the application: after a backtest on a freshly
    constructed strategy, [get_current_signal] leaves the object as the
    backtest made it and reports the label of the last generated
    signal with the close and the date of the last bar. *)
Theorem current_signal_after_backtest (sq : Q -> Q) (frame : list Bar)
    (p : parameters) (initial_capital : Q) (b : Bar) :
  negative_window p = false ->
  iloc_last frame = inr b ->
  exists self' r c s,
    backtest sq (init frame p) initial_capital = inr (self', r) /\
    get_current_signal self' = inr (self', c) /\
    iloc_last (signal (signals_df r)) = inr s /\
    cs_signal c = signal_map_get s /\
    cs_price c = Close b /\
    cs_date c = date b.
Proof.
  intros N Hb.
  assert (frame <> []) as Hne by (intros ->; discriminate Hb).
  assert (price (signals (init frame p)) <> []) as P.
  { simpl. destruct frame; [contradiction | discriminate]. }
  destruct (backtest_returns sq (init frame p) initial_capital N P)
    as (self' & r & E).
  destruct (backtest_inv _ _ _ _ _ E) as (df1 & G & Hdf & Hself & _).
  destruct (generate_frame_inv _ _ _ G) as (_ & Hs & Hp & Hi).
  cbn [params signals init price index] in Hs, Hp, Hi.
  destruct (iloc_last_length frame (signal_of p (map Close frame)) b Hb)
    as [s Es].
  { now rewrite signal_of_length, length_map. }
  exists self', r, {| cs_signal := signal_map_get s;
                      cs_price := Close b; cs_date := date b |}, s.
  split; [exact E|].
  split.
  2:{ split; [|repeat split; auto].
      rewrite Hdf. unfold backtest_frame. cbn [signal]. now rewrite Hs. }
  rewrite get_current_signal_rows.
  2:{ rewrite Hself, Hdf. unfold len, backtest_frame. cbn [index].
      rewrite Hi, length_map. destruct frame; [contradiction | discriminate]. }
  rewrite Hself, Hdf. unfold backtest_frame. cbn [signal price index].
  rewrite Hs, Hp, Hi, Es.
  rewrite (iloc_last_map Close _ _ Hb), (iloc_last_map date _ _ Hb).
  reflexivity.
Qed.

Lemma current_signal_after_backtest_witness :
  exists self' r c,
    backtest sqrt_floor (init (bars [2; 1]) (SMA 1 2)) 100000 = inr (self', r) /\
    get_current_signal self' = inr (self', c) /\
    cs_signal c = SELL.
Proof.
  destruct (current_signal_after_backtest sqrt_floor (bars [2; 1]) (SMA 1 2)
              100000 {| date := 1; Close := Fin 1 |} eq_refl eq_refl)
    as (self' & r & c & s & E & G & Es & H & _).
  assert (exists s0 r0,
             backtest sqrt_floor (init (bars [2; 1]) (SMA 1 2)) 100000
             = inr (s0, r0) /\
             iloc_last (signal (signals_df r0)) = inr (-1)%Z)
    as (s0 & r0 & E0 & L0)
      by (do 2 eexists; split; [vm_compute; reflexivity | reflexivity]).
  rewrite E0 in E. injection E as <- <-.
  exists s0, r0, c. split; [exact E0|]. split; [exact G|].
  rewrite H. rewrite L0 in Es. injection Es as <-. reflexivity.
Defined.

(** X4.  On a frame without rows nothing is returned: [backtest] and
    [get_current_signal] raise, a [ValueError] when a window is
    negative and an [IndexError] otherwise. *)
Theorem empty_frame_raises (sq : Q -> Q) (p : parameters)
    (initial_capital : Q) :
  backtest sq (init [] p) initial_capital
  = inl (if negative_window p then ValueError else IndexError) /\
  get_current_signal (init [] p)
  = inl (if negative_window p then ValueError else IndexError).
Proof.
  unfold backtest, get_current_signal, generate_signals.
  cbn [len signals init index map length Nat.eqb params].
  destruct (negative_window p) eqn:N.
  - rewrite generate_frame_negative by assumption. split; reflexivity.
  - match goal with |- context [generate_frame p ?df] =>
      destruct (generate_frame_ok p df N) as (df' & -> & Hs & Hp & Hi)
    end.
    cbn [bind ret signals with_signals price index] in *.
    assert (signal df' = []) as S0.
    { apply length_zero_iff_nil. now rewrite Hs, signal_of_length. }
    split.
    + unfold backtest_frame. cbn [portfolio_value].
      rewrite S0, Hp. reflexivity.
    + rewrite S0. reflexivity.
Qed.

(* ================================================================== *)
(** ** Windows longer than the history                                 *)
(* ================================================================== *)

Lemma rolling_short w xs :
  (Z.of_nat (length xs) < w)%Z -> Forall (eq NaN) (rolling w xs).
Proof.
  intros H. unfold rolling, rolling_mean_nat.
  apply Forall_forall. intros x Hx.
  apply in_map_iff in Hx as (i & <- & Hi). apply in_seq in Hi.
  unfold rolling_mean_at.
  destruct (Nat.ltb_spec (i + 1) (Z.to_nat w)); [reflexivity | lia].
Qed.

Lemma all_nan_gtb_l xs ys :
  Forall (eq NaN) xs -> Forall (eq false) (zip_with gtb xs ys).
Proof.
  intros H. revert ys.
  induction H as [|x xs <- _ IH]; intros [|y ys]; simpl; constructor; auto.
Qed.

Lemma all_nan_gtb_r xs ys :
  Forall (eq NaN) ys -> Forall (eq false) (zip_with gtb xs ys).
Proof.
  intros H. revert xs.
  induction H as [|y ys <- _ IH]; intros [|x xs]; simpl; constructor; auto.
  now destruct x.
Qed.

Lemma all_nan_ltb_l xs ys :
  Forall (eq NaN) xs -> Forall (eq false) (zip_with ltb xs ys).
Proof.
  intros H. revert ys.
  induction H as [|x xs <- _ IH]; intros [|y ys]; simpl; constructor; auto.
Qed.

Lemma all_nan_ltb_r xs ys :
  Forall (eq NaN) ys -> Forall (eq false) (zip_with ltb xs ys).
Proof.
  intros H. revert xs.
  induction H as [|y ys <- _ IH]; intros [|x xs]; simpl; constructor; auto.
  now destruct x.
Qed.

Lemma all_nan_cmp (cmp : float -> float -> bool) (k : float) xs :
  (forall y, cmp NaN y = false) ->
  Forall (eq NaN) xs -> Forall (eq false) (map (fun x => cmp x k) xs).
Proof.
  intros Hc. induction 1 as [|x xs <- _ IH]; simpl; constructor; auto.
Qed.

Lemma all_false_andb_l ms ns :
  Forall (eq false) ms -> Forall (eq false) (zip_with andb ms ns).
Proof.
  intros H. revert ns.
  induction H as [|m ms <- _ IH]; intros [|n ns]; simpl; constructor; auto.
Qed.

Lemma all_false_andb_r ms ns :
  Forall (eq false) ns -> Forall (eq false) (zip_with andb ms ns).
Proof.
  intros H. revert ms.
  induction H as [|n ns <- _ IH]; intros [|m ms]; simpl; constructor; auto.
  now destruct m.
Qed.

Lemma all_false_orb ms ns :
  Forall (eq false) ms -> Forall (eq false) ns ->
  Forall (eq false) (zip_with orb ms ns).
Proof.
  intros H. revert ns.
  induction H as [|m ms <- _ IH]; intros ns Hn; simpl.
  - constructor.
  - destruct Hn as [|n ns <- Hn]; constructor; auto.
Qed.

Lemma loc_set_all_false mask v col :
  Forall (eq false) mask ->
  Forall (eq 0%Z) col ->
  Forall (eq 0%Z) (loc_set mask v col).
Proof.
  intros H. revert col.
  induction H as [|m ms <- _ IH]; intros col Hc.
  - constructor.
  - destruct Hc as [|c col <- Hc]; simpl; constructor; auto.
    now apply IH.
Qed.

Lemma zeros_all_zero {A} (xs : list A) : Forall (eq 0%Z) (zeros xs).
Proof. induction xs; simpl; constructor; auto. Qed.

Lemma diff_from_all_zero xs o :
  o = None \/ o = Some 0%Z ->
  Forall (eq 0%Z) xs ->
  Forall (eq 0%Z)
    (fillna 0 (zip_with (fun x p => option_map (fun p' => (x - p')%Z) p)
                        xs (shift_from o (map Some xs)))).
Proof.
  intros Ho H. revert o Ho.
  induction H as [|x xs <- _ IH]; intros o Ho; simpl; constructor.
  - destruct Ho as [-> | ->]; reflexivity.
  - apply IH. now right.
Qed.

Lemma crossover_all_zero st :
  Forall (eq 0%Z) st -> Forall (eq 0%Z) (crossover st).
Proof. intros H. apply diff_from_all_zero; auto. Qed.

Lemma all_zero_no_trades sig : Forall (eq 0%Z) sig -> count_trades sig = 0%nat.
Proof.
  unfold count_trades. induction 1 as [|z sig <- _ IH]; simpl; auto.
Qed.

Lemma sma_state_undefined short long :
  Forall (eq NaN) short \/ Forall (eq NaN) long ->
  Forall (eq 0%Z) (sma_state short long).
Proof.
  intros H. unfold sma_state.
  apply loc_set_all_false; [|apply loc_set_all_false].
  - destruct H; [now apply all_nan_ltb_l | now apply all_nan_ltb_r].
  - destruct H; [now apply all_nan_gtb_l | now apply all_nan_gtb_r].
  - apply zeros_all_zero.
Qed.

Lemma rsi_signal_undefined os ob r :
  Forall (eq NaN) r -> Forall (eq 0%Z) (rsi_signal os ob r).
Proof.
  intros H. unfold rsi_signal.
  apply loc_set_all_false; [|apply loc_set_all_false].
  - apply all_false_andb_l.
    now apply (all_nan_cmp gtb (Fin ob)).
  - apply all_false_andb_l.
    now apply (all_nan_cmp ltb (Fin os)).
  - apply zeros_all_zero.
Qed.

Lemma combined_state_undefined os ob short long r :
  Forall (eq NaN) short \/ Forall (eq NaN) long ->
  Forall (eq NaN) r ->
  Forall (eq 0%Z) (combined_state os ob short long r).
Proof.
  intros H Hr. unfold combined_state.
  apply loc_set_all_false; [|apply loc_set_all_false].
  - apply all_false_orb.
    + destruct H; [now apply all_nan_ltb_l | now apply all_nan_ltb_r].
    + now apply (all_nan_cmp gtb (Fin ob)).
  - apply all_false_andb_r.
    now apply (all_nan_cmp ltb (Fin os)).
  - apply zeros_all_zero.
Qed.

Lemma div_all_nan xs ys :
  Forall (eq NaN) xs -> Forall (eq NaN) (zip_with div xs ys).
Proof.
  intros H. revert ys.
  induction H as [|x xs <- _ IH]; intros [|y ys]; simpl; constructor; auto.
Qed.

Lemma rsi_column_short n prices :
  (Z.of_nat (length prices) < n)%Z -> Forall (eq NaN) (rsi_column n prices).
Proof.
  intros H. unfold rsi_column.
  assert (Forall (eq NaN) (rolling n (gains (diff prices)))) as G.
  { apply rolling_short. unfold gains. now rewrite length_map, diff_length. }
  apply (div_all_nan _ (rolling n (losses (diff prices)))) in G.
  induction G as [|x xs <- _ IH]; simpl; constructor; auto.
Qed.

(** X5.  A window longer than the history is not an error: the indicator is
    undefined on every bar, and every signal is 0.  For the combined
    strategy this needs the RSI period and one of the two
    moving-average windows to exceed the number of bars. *)
Theorem insufficient_history_no_signal (p : parameters) (df : DataFrame) :
  negative_window p = false ->
  insufficient_history p (length (price df)) ->
  exists df',
    generate_frame p df = inr df' /\
    length (signal df') = length (price df) /\
    Forall (eq 0%Z) (signal df') /\
    count_trades (signal df') = 0%nat.
Proof.
  intros N H.
  destruct (generate_frame_ok p df N) as (df' & E & Hs & _).
  exists df'. split; [exact E|].
  split; [now rewrite Hs, signal_of_length|].
  assert (Forall (eq 0%Z) (signal df')) as Z0.
  { rewrite Hs. destruct p as [s l | n os ob | s l n os ob]; simpl in H |- *.
    - apply crossover_all_zero, sma_state_undefined.
      destruct H; [left | right]; now apply rolling_short.
    - now apply rsi_signal_undefined, rsi_column_short.
    - destruct H as [H Hn].
      apply crossover_all_zero, combined_state_undefined.
      + destruct H; [left | right]; now apply rolling_short.
      + now apply rsi_column_short. }
  split; [exact Z0 | now apply all_zero_no_trades].
Qed.

Lemma insufficient_history_no_signal_witness :
  exists df',
    generate_frame (SMA 2 5) (frame_of [3; 1; 4; 1] (SMA 2 5)) = inr df' /\
    count_trades (signal df') = 0%nat.
Proof.
  destruct (insufficient_history_no_signal (SMA 2 5)
              (frame_of [3; 1; 4; 1] (SMA 2 5)) eq_refl)
    as (df' & E & _ & _ & H).
  - right. vm_compute. reflexivity.
  - exists df'. split; [exact E | exact H].
Defined.

(* ================================================================== *)
(** ** The running sum of crossover signals                            *)
(* ================================================================== *)

Lemma cumsum_from_diffs acc prev xs :
  cumsum_from acc
    (fillna 0 (zip_with (fun x p => option_map (fun p' => (x - p')%Z) p)
                        xs (shift_from (Some prev) (map Some xs))))
  = map (fun x => (acc + x - prev)%Z) xs.
Proof.
  revert acc prev; induction xs as [|x xs IH]; intros acc prev;
    [reflexivity|].
  simpl. rewrite IH. f_equal.
  - lia.
  - apply map_ext. intros y. lia.
Qed.

(** The running sum of a first difference gives the column back, up to
    its first entry. *)
Lemma cumsum_crossover st :
  cumsum (crossover st) = map (fun x => (x - hd 0 st)%Z) st.
Proof.
  destruct st as [|x0 st]; [reflexivity|].
  unfold cumsum, crossover, diff_int, shift_int. simpl.
  rewrite cumsum_from_diffs.
  f_equal; try lia; apply map_ext; intros y; lia.
Qed.

Lemma loc_set_range (P : Z -> Prop) mask v col :
  P v -> Forall P col -> Forall P (loc_set mask v col).
Proof.
  intros Hv Hc. revert mask.
  induction Hc as [|c col Hc _ IH]; intros [|m mask]; simpl;
    try constructor.
  - now destruct m.
  - apply IH.
Qed.

Lemma zeros_range {A} (xs : list A) :
  Forall (fun z => (-1 <= z <= 1)%Z) (zeros xs).
Proof. induction xs; simpl; constructor; auto; lia. Qed.

Lemma sma_state_range short long :
  Forall (fun z => (-1 <= z <= 1)%Z) (sma_state short long).
Proof.
  unfold sma_state. repeat apply loc_set_range; try lia. apply zeros_range.
Qed.

Lemma combined_state_range os ob short long r :
  Forall (fun z => (-1 <= z <= 1)%Z) (combined_state os ob short long r).
Proof.
  unfold combined_state. repeat apply loc_set_range; try lia.
  apply zeros_range.
Qed.

(** The first entry of a rolling mean: undefined, or, for a window of
    one bar, that bar. *)
Lemma rolling_head w x xs :
  hd NaN (rolling w (x :: xs)) = NaN \/
  hd NaN (rolling w (x :: xs)) = ((Fin 0 + x) / of_Z 1)%F.
Proof.
  unfold rolling, rolling_mean_nat. cbn [length seq map hd].
  unfold rolling_mean_at, window, fsum.
  destruct (Z.to_nat w) as [|[|w']]; simpl; auto.
Qed.

Lemma gtb_irrefl x : (x >? x)%F = false.
Proof. float_cases. Qed.

Lemma ltb_irrefl x : (x <? x)%F = false.
Proof. float_cases. Qed.

Lemma gtb_nan_r x : (x >? NaN)%F = false.
Proof. now destruct x. Qed.

Lemma ltb_nan_r x : (x <? NaN)%F = false.
Proof. now destruct x. Qed.

(** At the first bar the two moving averages are undefined or equal. *)
Lemma rolling_heads_agree s l x xs :
  (hd NaN (rolling s (x :: xs)) >? hd NaN (rolling l (x :: xs)))%F = false /\
  (hd NaN (rolling s (x :: xs)) <? hd NaN (rolling l (x :: xs)))%F = false.
Proof.
  destruct (rolling_head s x xs) as [-> | ->];
    destruct (rolling_head l x xs) as [-> | ->];
    auto using gtb_irrefl, ltb_irrefl, gtb_nan_r, ltb_nan_r.
Qed.

Lemma rolling_cons w x xs :
  rolling w (x :: xs)
  = hd NaN (rolling w (x :: xs)) :: tl (rolling w (x :: xs)).
Proof. reflexivity. Qed.

Lemma sma_state_head s l prices :
  hd 0%Z (sma_state (rolling s prices) (rolling l prices)) = 0%Z.
Proof.
  destruct prices as [|x xs]; [reflexivity|].
  destruct (rolling_heads_agree s l x xs) as [Hg Hl].
  rewrite (rolling_cons s), (rolling_cons l).
  unfold sma_state, loc_set. cbn [zip_with zeros map hd].
  now rewrite Hg, Hl.
Qed.

(** The RSI is undefined at the first bar, whatever the period. *)
Lemma rsi_column_head n x xs : hd NaN (rsi_column n (x :: xs)) = NaN.
Proof.
  unfold rsi_column, rolling, rolling_mean_nat.
  unfold gains, losses. rewrite !length_map, diff_length.
  cbn [length seq map zip_with hd].
  unfold rolling_mean_at, window, fsum, diff, shift.
  destruct (Z.to_nat n) as [|[|w']]; simpl; try reflexivity;
    destruct x; reflexivity.
Qed.

Lemma rsi_column_cons n x xs :
  rsi_column n (x :: xs)
  = hd NaN (rsi_column n (x :: xs)) :: tl (rsi_column n (x :: xs)).
Proof.
  pose proof (rsi_column_length n (x :: xs)) as L.
  destruct (rsi_column n (x :: xs)); [discriminate L | reflexivity].
Qed.

Lemma combined_state_head os ob s l n prices :
  hd 0%Z (combined_state os ob (rolling s prices) (rolling l prices)
                         (rsi_column n prices)) = 0%Z.
Proof.
  destruct prices as [|x xs]; [reflexivity|].
  destruct (rolling_heads_agree s l x xs) as [Hg Hl].
  rewrite (rolling_cons s), (rolling_cons l), rsi_column_cons, rsi_column_head.
  unfold combined_state, loc_set. cbn [zip_with zeros map hd].
  now rewrite Hg, Hl.
Qed.

Lemma generate_frame_raw_state p df df' :
  emits_crossovers p = true ->
  generate_frame p df = inr df' ->
  signal df' = crossover (raw_state p df') /\
  hd 0%Z (raw_state p df') = 0%Z.
Proof.
  intros C E. destruct (generate_frame_inv _ _ _ E) as (N & _).
  destruct p as [s l | n os ob | s l n os ob]; [|discriminate C|];
    simpl in N, E.
  - apply orb_false_iff in N as [Hs Hl]. apply Z.ltb_ge in Hs, Hl.
    rewrite !rolling_mean_ok in E by assumption. simpl in E.
    injection E as <-. simpl. split; [reflexivity|].
    apply sma_state_head.
  - apply orb_false_iff in N as [N Hn].
    apply orb_false_iff in N as [Hs Hl]. apply Z.ltb_ge in Hs, Hl, Hn.
    rewrite !rolling_mean_ok, compute_rsi_ok in E by assumption. simpl in E.
    injection E as <-. simpl. split; [reflexivity|].
    apply combined_state_head.
Qed.

(** X6.  For the SMA and the combined strategy the emitted signals telescope:
    their running sum up to a bar is the raw state at that bar, so it is
    always -1, 0 or +1, however many crossovers there were. *)
Theorem crossover_signals_telescope (p : parameters) (df : DataFrame) :
  emits_crossovers p = true ->
  negative_window p = false ->
  exists df',
    generate_frame p df = inr df' /\
    signal df' = crossover (raw_state p df') /\
    cumsum (signal df') = raw_state p df' /\
    Forall (fun z => (-1 <= z <= 1)%Z) (cumsum (signal df')).
Proof.
  intros C N.
  destruct (generate_frame_ok p df N) as (df' & E & _).
  exists df'. split; [exact E|].
  destruct (generate_frame_raw_state p df df' C E) as (Hs & Hh).
  split; [exact Hs|].
  assert (cumsum (signal df') = raw_state p df') as T.
  { rewrite Hs, cumsum_crossover, Hh.
    rewrite <- (map_id (raw_state p df')) at 2.
    apply map_ext. intros z. lia. }
  split; [exact T|]. rewrite T.
  destruct p; [apply sma_state_range | discriminate C
               | apply combined_state_range].
Qed.

Lemma crossover_signals_telescope_witness :
  exists df',
    generate_frame (SMA 1 2) (frame_of [100; 110; 99; 120] (SMA 1 2))
    = inr df' /\
    cumsum (signal df') = [0; 1; -1; 1]%Z.
Proof.
  destruct (crossover_signals_telescope (SMA 1 2)
              (frame_of [100; 110; 99; 120] (SMA 1 2)) eq_refl eq_refl)
    as (df' & E & _ & H & _).
  exists df'. split; [exact E|]. rewrite H.
  assert (generate_frame (SMA 1 2) (frame_of [100; 110; 99; 120] (SMA 1 2))
          = inr (generated [100; 110; 99; 120] (SMA 1 2))) as E0
      by (vm_compute; reflexivity).
  rewrite E0 in E. injection E as <-. vm_compute. reflexivity.
Defined.

(* ================================================================== *)
(** ** The position of the RSI strategy                                *)
(* ================================================================== *)

Lemma cumsum_from_counts acc sig t z :
  Forall (fun s => s = (-1)%Z \/ s = 0%Z \/ s = 1%Z) sig ->
  nth_error (cumsum_from acc (replace (-1) 0 sig)) t = Some z ->
  z = (acc + Z.of_nat (count_occ Z.eq_dec (firstn (S t) sig) 1))%Z.
Proof.
  intros H. revert acc t.
  induction H as [|s sig Hs _ IH]; intros acc t Hz.
  - destruct t; discriminate.
  - destruct t as [|t].
    + simpl in Hz. injection Hz as <-.
      destruct Hs as [-> | [-> | ->]]; simpl; lia.
    + cbn [replace map cumsum_from nth_error] in Hz.
      apply IH in Hz. rewrite Hz.
      change (firstn (S (S t)) (s :: sig)) with (s :: firstn (S t) sig).
      destruct Hs as [-> | [-> | ->]]; simpl; lia.
Qed.

(** X7.  For the RSI strategy the position at a bar is the number of buy
    signals up to and including that bar; a sell never lowers it, so it
    never decreases. *)
Theorem rsi_position_counts_buys (sq : Q -> Q) (self : TradingStrategy)
    (initial_capital : Q) (n : Z) (os ob : Q) :
  params self = RSI n os ob ->
  (0 <= n)%Z ->
  price (signals self) <> [] ->
  exists self' r,
    backtest sq self initial_capital = inr (self', r) /\
    (forall t z,
        nth_error (position (signals_df r)) t = Some z ->
        z = Z.of_nat (buys_in (signal (signals_df r)) 0 (S t))) /\
    (forall t z z',
        nth_error (position (signals_df r)) t = Some z ->
        nth_error (position (signals_df r)) (S t) = Some z' ->
        (z <= z')%Z).
Proof.
  intros Hp Hn P.
  assert (negative_window (params self) = false) as N.
  { rewrite Hp. simpl. now apply Z.ltb_ge. }
  destruct (backtest_returns sq self initial_capital N P) as (self' & r & E).
  exists self', r. split; [exact E|].
  destruct (backtest_inv _ _ _ _ _ E) as (df1 & G & Hdf & _).
  destruct (generate_frame_inv _ _ _ G) as (_ & Hs & _).
  rewrite Hdf. unfold backtest_frame. cbn [position signal].
  assert (Forall (fun s => s = (-1)%Z \/ s = 0%Z \/ s = 1%Z) (signal df1))
    as R.
  { rewrite Hs, Hp. simpl. apply Forall_forall. intros z.
    apply rsi_signal_range. }
  split.
  - intros t z Hz. unfold position_of, cumsum, buys_in in *.
    apply (cumsum_from_counts 0 _ _ _ R) in Hz. simpl in Hz. exact Hz.
  - intros t z z' Hz Hz'.
    assert (S t < length (signal df1))%nat as L.
    { rewrite <- position_of_length. apply nth_error_Some. congruence. }
    destruct (nth_error (signal df1) (S t)) as [s|] eqn:Es.
    2:{ apply nth_error_None in Es. lia. }
    rewrite (position_step _ _ _ _ Hz Es) in Hz'. injection Hz' as <-.
    rewrite Forall_forall in R.
    destruct (R s (nth_error_In _ _ Es)) as [-> | [-> | ->]]; simpl; lia.
Qed.

Lemma rsi_position_counts_buys_witness :
  exists self' r,
    backtest sqrt_floor (init (bars [2; 3; 2; 3; 2; 3; 2]) (RSI 1 30 70))
             100000
    = inr (self', r) /\
    nth_error (position (signals_df r)) 6 = Some 3%Z /\
    buys_in (signal (signals_df r)) 0 7 = 3%nat.
Proof.
  destruct (rsi_position_counts_buys sqrt_floor
              (init (bars [2; 3; 2; 3; 2; 3; 2]) (RSI 1 30 70)) 100000
              1 30 70 eq_refl ltac:(lia) ltac:(discriminate))
    as (self' & r & E & H & _).
  assert (exists s r0,
             backtest sqrt_floor
               (init (bars [2; 3; 2; 3; 2; 3; 2]) (RSI 1 30 70)) 100000
             = inr (s, r0) /\
             nth_error (position (signals_df r0)) 6 = Some 3%Z)
    as (s & r0 & E0 & P0)
      by (do 2 eexists; split; [vm_compute; reflexivity | reflexivity]).
  rewrite E0 in E. injection E as <- <-.
  exists s, r0. split; [exact E0|]. split; [exact P0|].
  apply Nat2Z.inj. symmetry. exact (H 6%nat 3%Z P0).
Defined.

(* ================================================================== *)
(** ** Buy and hold                                                    *)
(* ================================================================== *)

Lemma cumulative_market_from p0 a p xs :
  0 < p0 -> 0 < p -> a == p / p0 ->
  Forall positive_price xs ->
  Forall2 (fun x c => exists q cq, x = Fin q /\ c = Fin cq /\ cq == q / p0)
    xs
    (cumprod_from (Fin a)
       (map (fun r => Fin 1 + r)%F
          (zip_with (fun x p => (x / p - Fin 1)%F) xs (shift_from (Fin p) xs)))).
Proof.
  intros Hp0 Hp Ha H. revert a p Hp Ha.
  induction H as [|x xs (q & -> & Hq) _ IH]; intros a p Hp Ha;
    [constructor|].
  cbn [shift_from zip_with map].
  assert ((Fin 1 + (Fin q / Fin p - Fin 1))%F
          = Fin (1 + (q / p + - (1)))) as ->.
  { unfold sub. simpl. now rewrite (positive_pos _ Hp). }
  cbn [cumprod_from is_nan mul].
  constructor.
  - exists q, (a * (1 + (q / p + - (1)))). repeat split; auto.
    rewrite Ha. field. split; lra.
  - apply IH; auto. rewrite Ha. field. split; lra.
Qed.

Lemma Forall2_nth_error {A B} (R : A -> B -> Prop) xs ys t x :
  Forall2 R xs ys -> nth_error xs t = Some x ->
  exists y, nth_error ys t = Some y /\ R x y.
Proof.
  intros H. revert t.
  induction H as [|a b xs ys Hab _ IH]; intros [|t] Ht; try discriminate.
  - injection Ht as <-. exists b. split; [reflexivity | assumption].
  - now apply IH.
Qed.

(** X8.  Over positive prices the cumulative market return at a bar is the
    price of that bar relative to the first price: what one unit of
    capital held from the first bar is worth. *)
Theorem cumulative_market_is_price_ratio (sq : Q -> Q)
    (self : TradingStrategy) (initial_capital : Q) :
  negative_window (params self) = false ->
  price (signals self) <> [] ->
  Forall positive_price (price (signals self)) ->
  exists self' r,
    backtest sq self initial_capital = inr (self', r) /\
    nth_error (cumulative_market (signals_df r)) 0 = Some NaN /\
    forall t q0 qt,
      nth_error (price (signals self)) 0 = Some (Fin q0) ->
      nth_error (price (signals self)) (S t) = Some (Fin qt) ->
      exists c, nth_error (cumulative_market (signals_df r)) (S t)
                = Some (Fin c) /\ c == qt / q0.
Proof.
  intros N P Hpos.
  destruct (backtest_returns sq self initial_capital N P) as (self' & r & E).
  exists self', r. split; [exact E|].
  destruct (backtest_inv _ _ _ _ _ E) as (df1 & G & Hdf & _).
  destruct (generate_frame_inv _ _ _ G) as (_ & _ & Hp & _).
  rewrite Hdf. unfold backtest_frame. cbn [cumulative_market]. rewrite Hp.
  destruct (price (signals self)) as [|x0 xs]; [contradiction|].
  apply Forall_cons_iff in Hpos as [(p0 & -> & Hp0) Hpos].
  rewrite pct_change_head, cumulative_nan.
  split; [reflexivity|].
  intros t q0 qt H0 Ht. simpl in H0. injection H0 as <-.
  simpl in Ht.
  destruct (Forall2_nth_error _ _ _ _ _
              (cumulative_market_from p0 1 p0 xs Hp0 Hp0
                 ltac:(field; lra) Hpos) Ht)
    as (c & Hc & (q & cq & Eq & -> & Hcq)).
  injection Eq as <-. exists cq. split; [exact Hc | exact Hcq].
Qed.

Lemma cumulative_market_is_price_ratio_witness :
  exists self' r c,
    backtest sqrt_floor (init (bars [100; 110; 99; 120]) (SMA 1 2)) 100000
    = inr (self', r) /\
    nth_error (cumulative_market (signals_df r)) 3 = Some (Fin c) /\
    c == 120 / 100.
Proof.
  destruct (cumulative_market_is_price_ratio sqrt_floor
              (init (bars [100; 110; 99; 120]) (SMA 1 2)) 100000
              eq_refl ltac:(discriminate))
    as (self' & r & E & _ & H).
  - repeat constructor; eexists; (split; [reflexivity|]); reflexivity.
  - destruct (H 2%nat 100 120 eq_refl eq_refl) as (c & Hc & Hq).
    exists self', r, c. auto.
Defined.

(* ================================================================== *)
(** ** A backtest without trades keeps the capital                     *)
(* ================================================================== *)

Lemma one_plus_all_eq ys :
  all_eq 0 ys -> all_eq 1 (map (fun r => Fin 1 + r)%F ys).
Proof.
  induction 1 as [|y ys (q & -> & Hq) _ IH]; simpl; constructor; auto.
  eexists. split; [reflexivity|]. rewrite Hq. ring.
Qed.

Lemma cumprod_from_all_eq a ys :
  a == 1 -> all_eq 1 ys -> all_eq 1 (cumprod_from (Fin a) ys).
Proof.
  intros Ha H. revert a Ha.
  induction H as [|y ys (q & -> & Hq) _ IH]; intros a Ha; simpl;
    constructor.
  - eexists. split; [reflexivity|]. rewrite Ha, Hq. ring.
  - apply IH. rewrite Ha, Hq. ring.
Qed.

Lemma all_eq_last k ys y :
  all_eq k ys -> iloc_last ys = inr y -> exists q, y = Fin q /\ q == k.
Proof.
  intros H E. unfold iloc_last in E.
  destruct (rev ys) as [|z zs] eqn:R; [discriminate|].
  injection E as ->.
  unfold all_eq in H. rewrite Forall_forall in H. apply H.
  apply in_rev. rewrite R. now left.
Qed.

Lemma iloc_last_cons {A} (x : A) xs :
  xs <> [] -> iloc_last (x :: xs) = iloc_last xs.
Proof.
  intros H. unfold iloc_last. simpl.
  destruct (rev xs) as [|z zs] eqn:R.
  - apply (f_equal (@rev A)) in R. rewrite rev_involutive in R.
    simpl in R. contradiction.
  - reflexivity.
Qed.

Lemma all_eq_nondecreasing cs :
  all_eq 1 cs -> nondecreasing (NaN :: cs).
Proof.
  intros H i j a b _ Hi Hj.
  assert (forall t q, nth_error (NaN :: cs) t = Some (Fin q) -> q == 1) as G.
  { intros [|t] q Ht; [discriminate|]. simpl in Ht.
    apply nth_error_In in Ht.
    unfold all_eq in H. rewrite Forall_forall in H.
    destruct (H _ Ht) as (q' & Eq & Hq). injection Eq as <-. exact Hq. }
  rewrite (G _ _ Hi), (G _ _ Hj). lra.
Qed.

(** X9.  Without a trade, over at least two bars of positive prices and with
    a capital that is not 0, the portfolio is worth the initial capital
    at the end, the total return is 0 and so is the maximum drawdown. *)
Theorem no_trade_keeps_capital (sq : Q -> Q) (self : TradingStrategy)
    (initial_capital : Q) :
  negative_window (params self) = false ->
  Forall positive_price (price (signals self)) ->
  (2 <= length (price (signals self)))%nat ->
  ~ initial_capital == 0 ->
  exists self' r,
    backtest sq self initial_capital = inr (self', r) /\
    (total_trades r = 0%nat ->
     (exists v, final_value r = Fin v /\ v == initial_capital) /\
     (exists q, total_return r = Fin q /\ q == 0) /\
     (exists d, max_drawdown r = Fin d /\ d == 0)).
Proof.
  intros N Hpos Hlen Hic.
  destruct (backtest_returns sq self initial_capital N) as (self' & r & E).
  { intros C. rewrite C in Hlen. simpl in Hlen. lia. }
  exists self', r. split; [exact E|]. intros T0.
  pose proof E as E'. unfold backtest, generate_signals in E'.
  destruct (backtest_inv _ _ _ _ _ E)
    as (df1 & G & Hdf & _ & _ & Hmd & _ & Ht & Hlast).
  rewrite G in E'. cbn [bind ret signals with_signals] in E'.
  rewrite <- Hdf, Hlast in E'. cbn [bind ret] in E'.
  injection E' as _ Hr.
  destruct (generate_frame_inv _ _ _ G) as (_ & Hs & Hp & _).
  rewrite Ht, Hdf in T0. unfold backtest_frame in T0. cbn [signal] in T0.
  rewrite Hdf in Hlast, Hmd. unfold backtest_frame in Hlast, Hmd.
  cbn [portfolio_value cumulative_strategy] in Hlast, Hmd.
  rewrite Hp in Hlast, Hmd.
  destruct (price (signals self)) as [|x0 xs]; [simpl in Hlen; lia|].
  destruct (strategy_return_flat (signal df1) x0 xs Hpos)
    as (rs & Ers & Hrs & Lrs); auto.
  { now rewrite Hs, signal_of_length. }
  rewrite Ers, cumulative_nan in Hlast, Hmd.
  pose proof (cumprod_from_all_eq 1 _ ltac:(reflexivity)
                (one_plus_all_eq rs Hrs)) as Hcum.
  set (cs := cumprod_from (Fin 1) (map (fun r => Fin 1 + r)%F rs)) in *.
  assert (cs <> []) as Hne.
  { intros C. apply (f_equal (@length float)) in C. unfold cs in C.
    rewrite cumprod_from_length, length_map, Lrs in C.
    simpl in Hlen, C. lia. }
  assert (exists v, final_value r = Fin v /\ v == initial_capital) as Hv.
  { cbn [map] in Hlast. rewrite iloc_last_cons in Hlast.
    2:{ intros C. apply map_eq_nil in C. contradiction. }
    destruct (iloc_last_nonempty cs Hne) as [c Ec].
    rewrite (iloc_last_map _ _ _ Ec) in Hlast. injection Hlast as <-.
    destruct (all_eq_last 1 cs c Hcum Ec) as (q & -> & Hq).
    eexists. split; [reflexivity|]. rewrite Hq. ring. }
  split; [exact Hv|]. split.
  - destruct Hv as (v & Ev & Hv). rewrite <- Hr. cbn [total_return].
    rewrite <- Hr in Ev. cbn [final_value] in Ev. rewrite Ev.
    unfold sub. simpl.
    destruct (positive_nonzero _ Hic) as [s ->].
    eexists. split; [reflexivity|]. rewrite Hv. field. exact Hic.
  - rewrite Hmd.
    destruct cs as [|c1 cs'] eqn:Ecs; [contradiction|].
    pose proof Hcum as Hcum'.
    apply Forall_cons_iff in Hcum' as [(q1 & -> & Hq1) Hrest].
    destruct (max_drawdown_of_shape q1 cs') as (d & -> & _ & Hd).
    { lra. }
    { eapply all_eq_finite; eauto. }
    exists d. split; [reflexivity|].
    apply Hd. now apply all_eq_nondecreasing.
Qed.

Lemma no_trade_keeps_capital_witness :
  exists self' r v,
    backtest sqrt_floor (init (bars [100; 101; 102; 103]) (SMA 50 200)) 100000
    = inr (self', r) /\
    final_value r = Fin v /\ v == 100000.
Proof.
  destruct (no_trade_keeps_capital sqrt_floor
              (init (bars [100; 101; 102; 103]) (SMA 50 200)) 100000
              eq_refl)
    as (self' & r & E & H).
  - repeat constructor; eexists; (split; [reflexivity|]); reflexivity.
  - simpl. lia.
  - intros C. discriminate C.
  - assert (exists s r0,
               backtest sqrt_floor
                 (init (bars [100; 101; 102; 103]) (SMA 50 200)) 100000
               = inr (s, r0) /\ total_trades r0 = 0%nat)
      as (s & r0 & E0 & T0)
        by (do 2 eexists; split; [vm_compute; reflexivity | reflexivity]).
    rewrite E0 in E. injection E as <- <-.
    destruct (H T0) as ((v & Hv & Hq) & _).
    exists s, r0, v. auto.
Defined.

(* ================================================================== *)
(** ** The win rate                                                    *)
(* ================================================================== *)

Lemma win_rate_of_nonneg sr sig :
  exists q, win_rate_of sr sig = Fin q /\ 0 <= q.
Proof.
  unfold win_rate_of.
  destruct (Nat.ltb_spec 0 (count_trades sig)) as [H|H].
  - assert (0 < inject_Z (Z.of_nat (count_trades sig))) as Hc.
    { change 0 with (inject_Z 0). rewrite <- Zlt_Qlt. lia. }
    assert (0 <= inject_Z (Z.of_nat (winning_trades sr))) as Hw.
    { change 0 with (inject_Z 0). rewrite <- Zle_Qle. lia. }
    unfold of_Z. simpl. rewrite (positive_pos _ Hc).
    eexists. split; [reflexivity|].
    apply Qmult_le_0_compat; [|lra].
    apply Qle_shift_div_l; [exact Hc | lra].
  - exists 0. split; [reflexivity | lra].
Qed.

(** X10.  The win rate a backtest returns is a number, never NaN and never
    negative.  It is not a percentage of the trades, though: winning
    bars are counted, not winning trades, so one buy held over three
    rising bars (SMA(1,2) over 1, 2, 4, 8, 16) gives 300. *)
Theorem win_rate_nonnegative (sq : Q -> Q) (self : TradingStrategy)
    (initial_capital : Q) :
  negative_window (params self) = false ->
  price (signals self) <> [] ->
  (exists self' r q,
      backtest sq self initial_capital = inr (self', r) /\
      win_rate r = Fin q /\ 0 <= q) /\
  (exists self' r q,
      backtest sq (init (bars [1; 2; 4; 8; 16]) (SMA 1 2)) initial_capital
      = inr (self', r) /\
      total_trades r = 1%nat /\
      win_rate r = Fin q /\ q == 300).
Proof.
  intros N P. split.
  - destruct (backtest_returns sq self initial_capital N P)
      as (self' & r & E).
    destruct (backtest_inv _ _ _ _ _ E) as (df1 & _ & _ & _ & Hw & _).
    destruct (win_rate_of_nonneg (strategy_return (signals_df r))
                                 (signal (signals_df r))) as (q & Hq & H0).
    exists self', r, q. rewrite Hw. auto.
  - destruct (backtest_returns sq (init (bars [1; 2; 4; 8; 16]) (SMA 1 2))
                initial_capital eq_refl ltac:(discriminate))
      as (self' & r & E).
    destruct (backtest_inv _ _ _ _ _ E)
      as (df1 & G & Hdf & _ & Hw & _ & _ & Ht & _).
    assert (generate_frame (SMA 1 2)
              (signals (init (bars [1; 2; 4; 8; 16]) (SMA 1 2)))
            = inr (generated [1; 2; 4; 8; 16] (SMA 1 2))) as G0
        by (vm_compute; reflexivity).
    cbn [params init] in G. rewrite G0 in G. injection G as <-.
    exists self', r. eexists.
    split; [exact E|].
    rewrite Hw, Ht, Hdf. unfold backtest_frame.
    cbn [signal strategy_return].
    split; [vm_compute; reflexivity|].
    split; [vm_compute; reflexivity | reflexivity].
Qed.

Lemma win_rate_nonnegative_witness :
  exists self' r q,
    backtest sqrt_floor (init (bars [100; 110; 99; 120]) (SMA 1 2)) 100000
    = inr (self', r) /\
    win_rate r = Fin q /\ 0 <= q.
Proof.
  exact (proj1 (win_rate_nonnegative sqrt_floor
                  (init (bars [100; 110; 99; 120]) (SMA 1 2)) 100000
                  eq_refl ltac:(discriminate))).
Defined.

(* ================================================================== *)
(** ** Running a backtest again                                        *)
(* ================================================================== *)

Lemma generate_frame_again p df df1 ic :
  generate_frame p df = inr df1 ->
  exists df1',
    generate_frame p (backtest_frame df1 ic) = inr df1' /\
    backtest_frame df1' ic = backtest_frame df1 ic.
Proof.
  intros E. destruct (generate_frame_inv _ _ _ E) as (N & _).
  destruct p as [s l | n os ob | s l n os ob]; simpl in N, E |- *.
  - apply orb_false_iff in N as [Hs Hl]. apply Z.ltb_ge in Hs, Hl.
    rewrite !rolling_mean_ok in E |- * by assumption. simpl in E |- *.
    injection E as <-. eexists. split; reflexivity.
  - apply Z.ltb_ge in N.
    rewrite !compute_rsi_ok in E |- * by assumption. simpl in E |- *.
    injection E as <-. eexists. split; reflexivity.
  - apply orb_false_iff in N as [N Hn].
    apply orb_false_iff in N as [Hs Hl]. apply Z.ltb_ge in Hs, Hl, Hn.
    rewrite !rolling_mean_ok, !compute_rsi_ok in E |- * by assumption.
    simpl in E |- *.
    injection E as <-. eexists. split; reflexivity.
Qed.

(** X11.  A backtest can be run again: on the object a backtest returned, a
    second backtest with the same capital returns the same object and
    the same result; the columns the first run left in the frame do not
    enter the second. *)
Theorem backtest_repeatable (sq : Q -> Q) (self self' : TradingStrategy)
    (initial_capital : Q) (r : BacktestResult) :
  backtest sq self initial_capital = inr (self', r) ->
  backtest sq self' initial_capital = inr (self', r).
Proof.
  unfold backtest, generate_signals. intros E.
  destruct (generate_frame (params self) (signals self)) as [e|df1] eqn:G;
    [discriminate|].
  cbn [bind ret signals with_signals] in E.
  destruct (iloc_last (portfolio_value (backtest_frame df1 initial_capital)))
    as [e|v] eqn:L; [discriminate|].
  cbn [bind ret] in E. injection E as <- <-.
  cbn [params signals with_signals].
  destruct (generate_frame_again _ _ _ initial_capital G) as (df1' & -> & Eq).
  cbn [bind ret signals with_signals params data].
  rewrite Eq, L. reflexivity.
Qed.

Lemma backtest_repeatable_witness :
  exists self' r,
    backtest sqrt_floor (init (bars [100; 110; 99; 120]) (SMA 1 2)) 100000
    = inr (self', r) /\
    backtest sqrt_floor self' 100000 = inr (self', r).
Proof.
  destruct (backtest_returns sqrt_floor
              (init (bars [100; 110; 99; 120]) (SMA 1 2)) 100000
              eq_refl ltac:(discriminate)) as (self' & r & E).
  exists self', r. split; [exact E|].
  exact (backtest_repeatable sqrt_floor _ self' 100000 r E).
Defined.

(* ================================================================== *)
(** ** The range of the RSI                                            *)
(* ================================================================== *)

Lemma diff_from_defined prev xs :
  prev = NaN \/ finite prev ->
  Forall finite xs ->
  Forall (fun d => d = NaN \/ finite d) (zip_with sub xs (shift_from prev xs)).
Proof.
  intros Hp H. revert prev Hp.
  induction H as [|x xs (q & ->) _ IH]; intros prev Hp; simpl; constructor.
  - destruct Hp as [-> | (p & ->)]; [now left | right; eexists; reflexivity].
  - apply IH. right. now exists q.
Qed.

Lemma gains_nonneg ds :
  Forall (fun d => d = NaN \/ finite d) ds -> Forall nonneg (gains ds).
Proof.
  induction 1 as [|d ds [-> | (q & ->)] _ IH]; simpl; constructor; auto.
  - exists 0. split; [reflexivity | lra].
  - unfold gtb, compare. destruct (Qcompare_spec q 0);
      eexists; (split; [reflexivity | lra]).
Qed.

Lemma losses_nonneg ds :
  Forall (fun d => d = NaN \/ finite d) ds -> Forall nonneg (losses ds).
Proof.
  induction 1 as [|d ds [-> | (q & ->)] _ IH]; simpl; constructor; auto.
  - eexists. split; [reflexivity | lra].
  - unfold ltb, compare. destruct (Qcompare_spec q 0);
      eexists; (split; [reflexivity | lra]).
Qed.

Lemma fsum_nonneg xs a :
  0 <= a -> Forall nonneg xs ->
  exists s, fold_left add xs (Fin a) = Fin s /\ 0 <= s.
Proof.
  intros Ha H. revert a Ha.
  induction H as [|x xs (q & -> & Hq) _ IH]; intros a Ha; simpl.
  - eauto.
  - apply IH. lra.
Qed.

Lemma Forall_firstn {A} (P : A -> Prop) n xs :
  Forall P xs -> Forall P (firstn n xs).
Proof.
  intros H. revert n. induction H; intros [|n]; simpl; constructor; auto.
Qed.

Lemma Forall_skipn {A} (P : A -> Prop) n xs :
  Forall P xs -> Forall P (skipn n xs).
Proof.
  intros H. revert n. induction H; intros [|n]; simpl; auto.
Qed.

Lemma rolling_nonneg w xs :
  Forall nonneg xs -> Forall nonneg_or_nan (rolling w xs).
Proof.
  intros H. unfold rolling, rolling_mean_nat.
  apply Forall_forall. intros y Hy.
  apply in_map_iff in Hy as (i & <- & _).
  unfold rolling_mean_at.
  destruct (i + 1 <? Z.to_nat w)%nat; [now left|].
  destruct (Z.to_nat w) as [|w'] eqn:W.
  - left. reflexivity.
  - destruct (fsum_nonneg (window (S w') i xs) 0 ltac:(lra))
      as (s & Es & Hs).
    { now apply Forall_firstn, Forall_skipn. }
    unfold fsum. rewrite Es, div_by_count by lia.
    right. eexists. split; [reflexivity|].
    apply Qle_shift_div_l; [|lra].
    change 0 with (inject_Z 0). rewrite <- Zlt_Qlt. lia.
Qed.

Lemma div_Fin_pos a b : 0 < b -> (Fin a / Fin b)%F = Fin (a / b).
Proof. intros H. simpl. now rewrite (positive_pos _ H). Qed.

Lemma div_Fin_zero a b :
  b == 0 -> 0 <= a -> (Fin a / Fin b)%F = NaN \/ (Fin a / Fin b)%F = PInf.
Proof.
  intros Hb Ha. simpl. rewrite (positive_zero _ Hb).
  unfold positive. destruct (Qcompare_spec a 0); auto. lra.
Qed.

Lemma rsi_of_rs_nonneg r :
  0 <= r -> exists x, rsi_of_rs (Fin r) = Fin x /\ 0 <= x <= 100.
Proof.
  intros Hr. unfold rsi_of_rs. cbn [add].
  assert (0 < 1 + r) as Hd by lra.
  rewrite (div_Fin_pos _ _ Hd). unfold sub. cbn [opp add].
  eexists. split; [reflexivity|].
  assert (0 <= 100 / (1 + r)) by (apply Qle_shift_div_l; lra).
  assert (100 / (1 + r) <= 100) by (apply Qle_shift_div_r; lra).
  lra.
Qed.

Lemma rsi_of_ratio g l :
  nonneg_or_nan g -> nonneg_or_nan l -> rsi_value (rsi_of_rs (g / l)).
Proof.
  intros [-> | (a & -> & Ha)] Hl; [now left|].
  destruct Hl as [-> | (b & -> & Hb)]; [now left|].
  destruct (Qlt_le_dec 0 b) as [Hpos | Hle].
  - rewrite (div_Fin_pos _ _ Hpos). right.
    apply rsi_of_rs_nonneg. apply Qle_shift_div_l; lra.
  - assert (b == 0) as Hz by lra.
    destruct (div_Fin_zero a b Hz Ha) as [-> | ->]; [now left|].
    right. exists (100 + - 0). split; [reflexivity | lra].
Qed.

Lemma rsi_column_range n prices :
  Forall finite prices -> Forall rsi_value (rsi_column n prices).
Proof.
  intros H. unfold rsi_column.
  assert (Forall (fun d => d = NaN \/ finite d) (diff prices)) as D.
  { apply diff_from_defined; auto. }
  pose proof (rolling_nonneg n _ (gains_nonneg _ D)) as G.
  pose proof (rolling_nonneg n _ (losses_nonneg _ D)) as L.
  revert L. generalize (rolling n (losses (diff prices))).
  induction G as [|g gs Hg _ IH]; intros ls L; [constructor|].
  destruct L as [|l ls Hl L]; simpl; constructor.
  - now apply rsi_of_ratio.
  - now apply IH.
Qed.

(** X12.  Over finite prices the RSI that [RSIStrategy] and
    [CombinedStrategy] compute is, at every bar, either undefined or a
    number between 0 and 100. *)
Theorem rsi_between_0_and_100 (p : parameters) (n : Z) (df : DataFrame) :
  rsi_period_of p = Some n ->
  negative_window p = false ->
  Forall finite (price df) ->
  exists df',
    generate_frame p df = inr df' /\
    length (rsi df') = length (price df) /\
    Forall rsi_value (rsi df').
Proof.
  intros Hp N Hfin.
  destruct (generate_frame_ok p df N) as (df' & E & _).
  exists df'. split; [exact E|].
  pose proof (generate_frame_rsi p n df df' Hp E) as R.
  assert (0 <= n)%Z as Hn.
  { destruct (Z.ltb_spec n 0) as [C|]; [|assumption].
    rewrite compute_rsi_negative in R by assumption. discriminate. }
  rewrite compute_rsi_ok in R by assumption. injection R as R.
  fold (rolling n (gains (diff (price df)))) in R.
  fold (rolling n (losses (diff (price df)))) in R.
  fold (rsi_column n (price df)) in R.
  rewrite <- R. split; [apply rsi_column_length | now apply rsi_column_range].
Qed.

Lemma rsi_between_0_and_100_witness :
  exists df',
    generate_frame (RSI 2 30 70) (frame_of [11; 10; 11; 13] (RSI 2 30 70))
    = inr df' /\
    Forall rsi_value (rsi df').
Proof.
  destruct (rsi_between_0_and_100 (RSI 2 30 70) 2
              (frame_of [11; 10; 11; 13] (RSI 2 30 70)) eq_refl eq_refl)
    as (df' & E & _ & H).
  - repeat constructor; eexists; reflexivity.
  - exists df'. split; [exact E | exact H].
Defined.

(* ================================================================== *)
(** ** A flat price series                                             *)
(* ================================================================== *)

Lemma window_length w i xs :
  (i < length xs)%nat -> (w <= i + 1)%nat -> length (window w i xs) = w.
Proof.
  intros Hi Hw. unfold window. rewrite length_firstn, length_skipn. lia.
Qed.

Lemma rolling_all_eq c w xs :
  all_eq c xs -> Forall (eq_or_nan c) (rolling w xs).
Proof.
  intros H. unfold rolling, rolling_mean_nat.
  apply Forall_forall. intros y Hy.
  apply in_map_iff in Hy as (i & <- & Hi). apply in_seq in Hi.
  unfold rolling_mean_at.
  destruct (Nat.ltb_spec (i + 1) (Z.to_nat w)) as [|Hw]; [now left|].
  destruct (Z.to_nat w) as [|w'] eqn:W; [now left|].
  assert (all_eq c (window (S w') i xs)) as Hwin
      by now apply Forall_firstn, Forall_skipn.
  destruct (fsum_all_eq c _ 0 Hwin) as (s & Es & Hs).
  rewrite window_length in Hs by lia.
  unfold fsum. rewrite Es, div_by_count by lia.
  right. eexists. split; [reflexivity|].
  rewrite Hs. field.
  change 0 with (inject_Z 0). rewrite inject_Z_injective. lia.
Qed.

Lemma eq_or_nan_incomparable c a b :
  eq_or_nan c a -> eq_or_nan c b ->
  (a >? b)%F = false /\ (a <? b)%F = false.
Proof.
  intros [-> | (p & -> & Hp)] [-> | (q & -> & Hq)]; auto.
  unfold gtb, ltb, compare.
  destruct (Qcompare_spec p q); auto; lra.
Qed.

Lemma flat_columns_incomparable c xs ys :
  Forall (eq_or_nan c) xs -> Forall (eq_or_nan c) ys ->
  Forall (eq false) (zip_with gtb xs ys) /\
  Forall (eq false) (zip_with ltb xs ys).
Proof.
  intros Hx. revert ys.
  induction Hx as [|x xs Hx _ IH]; intros ys Hy; [split; constructor|].
  destruct Hy as [|y ys Hy Hys]; [split; constructor|].
  destruct (IH ys Hys) as [Hg Hl].
  destruct (eq_or_nan_incomparable c x y Hx Hy) as [Eg El].
  simpl. rewrite Eg, El. split; constructor; auto.
Qed.

Lemma diff_from_flat c prev xs :
  eq_or_nan c prev -> all_eq c xs ->
  Forall (eq_or_nan 0) (zip_with sub xs (shift_from prev xs)).
Proof.
  intros Hp H. revert prev Hp.
  induction H as [|x xs (q & -> & Hq) _ IH]; intros prev Hp; simpl;
    constructor.
  - destruct Hp as [-> | (p & -> & Hp)]; [now left|].
    right. eexists. split; [reflexivity|]. rewrite Hq, Hp. ring.
  - apply IH. right. now exists q.
Qed.

Lemma gains_flat ds : Forall (eq_or_nan 0) ds -> all_eq 0 (gains ds).
Proof.
  induction 1 as [|d ds [-> | (q & -> & Hq)] _ IH]; simpl; constructor; auto.
  - exists 0. split; [reflexivity | lra].
  - unfold gtb, compare. destruct (Qcompare_spec q 0); try lra;
      eexists; (split; [reflexivity | lra]).
Qed.

Lemma losses_flat ds : Forall (eq_or_nan 0) ds -> all_eq 0 (losses ds).
Proof.
  induction 1 as [|d ds [-> | (q & -> & Hq)] _ IH]; simpl; constructor; auto.
  - eexists. split; [reflexivity | lra].
  - unfold ltb, compare. destruct (Qcompare_spec q 0); try lra;
      eexists; (split; [reflexivity | lra]).
Qed.

Lemma div_flat gs ls :
  Forall (eq_or_nan 0) gs -> Forall (eq_or_nan 0) ls ->
  Forall (eq NaN) (zip_with div gs ls).
Proof.
  intros Hg. revert ls.
  induction Hg as [|g gs Hg _ IH]; intros ls Hl; [constructor|].
  destruct Hl as [|l ls Hl Hls]; simpl; constructor; [|now apply IH].
  destruct Hg as [-> | (a & -> & Ha)]; [reflexivity|].
  destruct Hl as [-> | (b & -> & Hb)]; [reflexivity|].
  simpl. now rewrite (positive_zero _ Hb), (positive_zero _ Ha).
Qed.

Lemma rsi_column_flat c n prices :
  all_eq c prices -> Forall (eq NaN) (rsi_column n prices).
Proof.
  intros H. unfold rsi_column.
  assert (Forall (eq_or_nan 0) (diff prices)) as D.
  { apply (diff_from_flat c); [now left | exact H]. }
  pose proof (div_flat _ _ (rolling_all_eq 0 n _ (gains_flat _ D))
                (rolling_all_eq 0 n _ (losses_flat _ D))) as R.
  induction R as [|x xs <- _ IH]; simpl; constructor; auto.
Qed.

(** X13.  On a price series that stays at one finite value no strategy ever
    signals, whatever its parameters: the moving averages are equal
    wherever they are defined and the RSI is undefined on every bar. *)
Theorem flat_prices_never_trade (p : parameters) (df : DataFrame) (c : Q) :
  negative_window p = false ->
  all_eq c (price df) ->
  exists df',
    generate_frame p df = inr df' /\
    length (signal df') = length (price df) /\
    Forall (eq 0%Z) (signal df') /\
    count_trades (signal df') = 0%nat.
Proof.
  intros N H.
  destruct (generate_frame_ok p df N) as (df' & E & Hs & _).
  exists df'. split; [exact E|].
  split; [now rewrite Hs, signal_of_length|].
  assert (Forall (eq 0%Z) (signal df')) as Z0.
  { rewrite Hs. destruct p as [s l | n os ob | s l n os ob]; simpl.
    - destruct (flat_columns_incomparable c _ _
                  (rolling_all_eq c s _ H) (rolling_all_eq c l _ H))
        as [Hg Hl].
      apply crossover_all_zero. unfold sma_state.
      apply loc_set_all_false; [exact Hl|].
      apply loc_set_all_false; [exact Hg | apply zeros_all_zero].
    - apply rsi_signal_undefined. now apply (rsi_column_flat c).
    - destruct (flat_columns_incomparable c _ _
                  (rolling_all_eq c s _ H) (rolling_all_eq c l _ H))
        as [Hg Hl].
      pose proof (rsi_column_flat c n _ H) as Hr.
      apply crossover_all_zero. unfold combined_state.
      apply loc_set_all_false; [|apply loc_set_all_false].
      + apply all_false_orb; [exact Hl|].
        now apply (all_nan_cmp gtb (Fin ob)).
      + apply all_false_andb_l. exact Hg.
      + apply zeros_all_zero. }
  split; [exact Z0 | now apply all_zero_no_trades].
Qed.

Lemma flat_prices_never_trade_witness :
  exists df',
    generate_frame (Combined 1 2 1 30 70)
      (frame_of [100; 100; 100; 100] (Combined 1 2 1 30 70)) = inr df' /\
    count_trades (signal df') = 0%nat.
Proof.
  destruct (flat_prices_never_trade (Combined 1 2 1 30 70)
              (frame_of [100; 100; 100; 100] (Combined 1 2 1 30 70)) 100
              eq_refl)
    as (df' & E & _ & _ & H).
  - repeat constructor; eexists; (split; [reflexivity|]); reflexivity.
  - exists df'. split; [exact E | exact H].
Defined.

(* ================================================================== *)
(** ** The data loader                                                 *)
(* ================================================================== *)

Module LoaderFacts.

Import Loader.
Local Open Scope string_scope.

Lemma contains_app c s t :
  contains c (s ++ t) = contains c s || contains c t.
Proof.
  unfold contains. induction s as [|a s IH]; simpl; [reflexivity|].
  rewrite IH. now rewrite orb_assoc.
Qed.

Lemma is_symbol_suffix s : is_symbol (s ++ ".NS") = true.
Proof.
  unfold is_symbol. rewrite contains_app.
  change (contains "." ".NS") with true.
  now rewrite orb_true_r.
Qed.

Lemma lookup_In {V} k (d : list (string * V)) v :
  lookup k d = Some v -> In v (map snd d).
Proof.
  induction d as [|[k' v'] d IH]; simpl; [discriminate|].
  destruct (String.eqb k k').
  - intros E. injection E as ->. now left.
  - intros E. right. now apply IH.
Qed.

Lemma popular_tickers_are_symbols k v :
  lookup k popular_tickers = Some v -> is_symbol v = true.
Proof.
  intros H. apply lookup_In in H.
  assert (forallb is_symbol (map snd popular_tickers) = true) as F
      by (vm_compute; reflexivity).
  rewrite forallb_forall in F. now apply F.
Qed.

(** X14.  Whatever it is given, [get_ticker_symbol] answers with a name in
    ticker form (one holding a dot or a caret), and such a name it
    returns as it is: resolving a symbol again changes nothing. *)
Theorem ticker_symbol_fixed_point (upper : string -> string) (name : string) :
  is_symbol (get_ticker_symbol upper name) = true /\
  get_ticker_symbol upper (get_ticker_symbol upper name)
  = get_ticker_symbol upper name.
Proof.
  assert (is_symbol (get_ticker_symbol upper name) = true) as H.
  { unfold get_ticker_symbol.
    destruct (is_symbol name) eqn:S; [exact S|].
    destruct (lookup (upper name) popular_tickers) as [v|] eqn:L.
    - eapply popular_tickers_are_symbols; eauto.
    - apply is_symbol_suffix. }
  split; [exact H|].
  unfold get_ticker_symbol at 1. now rewrite H.
Qed.

Section DownloadFacts.

Variable upper : string -> string.
Variable frame : Type.
Variable is_empty : frame -> bool.
Variable empty_frame : frame.
Variable csv : Type.
Variable to_csv : frame -> csv.
Variable read_csv : csv -> io frame.
Variable path_join : string -> string -> string.


Lemma write_same (fs : FS csv) path f : write fs path f path = Some f.
Proof. unfold write. now rewrite String.eqb_refl. Qed.



(** X16.  Round trip through the cache: when a call that did not use the
    cache returned a frame that is not empty, a later call for the same
    ticker and period, made less than a day after the first, returns
    what [read_csv] makes of the [to_csv] text of that frame, without
    asking the remote service and without touching the file system. *)
Theorem second_download_reads_the_cache (cache_dir : string)
    (env env' : Env frame) (fs fs' : FS csv) (ticker period : string)
    (use_cache : bool) (d : frame) :
  is_empty empty_frame = true ->
  cache_hit upper path_join cache_dir env fs ticker period use_cache = None ->
  download_data upper is_empty empty_frame to_csv read_csv path_join
      cache_dir env fs ticker period use_cache = (inr d, fs') ->
  is_empty d = false ->
  (now env' - now env < one_day)%Z ->
  download_data upper is_empty empty_frame to_csv read_csv path_join
      cache_dir env' fs' ticker period true
  = (read_csv (to_csv d), fs').
Proof.
  intros He Hmiss E Hd Hage.
  unfold Loader.download_data in E. rewrite Hmiss in E.
  unfold try_download in E.
  assert (d = empty_frame -> False) as Hne by (intros ->; congruence).
  destruct (yf_download env (get_ticker_symbol upper ticker) period)
    as [e|data]; [injection E as <- _; now contradiction Hne|].
  destruct (is_empty data); [injection E as <- _; now contradiction Hne|].
  destruct (writable env _); [|injection E as <- _; now contradiction Hne].
  injection E as <- <-.
  unfold Loader.download_data, Loader.cache_hit, Loader.cache_path.
  rewrite write_same. cbn [mtime contents].
  destruct (Z.ltb_spec (now env' - now env) one_day); [reflexivity | lia].
Qed.

Lemma dict_set_In {V} k (v : V) d k' v' :
  In (k', v') (dict_set k v d) -> (k' = k /\ v' = v) \/ In (k', v') d.
Proof.
  induction d as [|[k0 v0] d IH]; simpl.
  - intros [E|[]]. injection E as <- <-. now left.
  - destruct (String.eqb_spec k k0) as [->|Hk]; simpl.
    + intros [E|H]; [injection E as <- <-; now left | right; now right].
    + intros [E|H]; [right; now left|].
      destruct (IH H) as [?|?]; [now left | right; now right].
Qed.

Lemma dict_set_keys {V} k (v : V) d :
  NoDup (map fst d) -> NoDup (map fst (dict_set k v d)).
Proof.
  intros H.
  assert (forall k', In k' (map fst (dict_set k v d)) ->
                     k' = k \/ In k' (map fst d)) as Hin.
  { intros k' Hk. apply in_map_iff in Hk as ([k0 v0] & <- & Hk).
    apply dict_set_In in Hk as [[-> _]|Hk]; [now left|].
    right. apply in_map_iff. now exists (k0, v0). }
  clear Hin. induction d as [|[k0 v0] d IH]; simpl.
  - constructor; [intros [] | constructor].
  - apply NoDup_cons_iff in H as [Hn H].
    destruct (String.eqb_spec k k0) as [->|Hk]; simpl.
    + constructor; assumption.
    + constructor; [|now apply IH].
      intros Hk0. apply in_map_iff in Hk0 as ([k1 v1] & E & Hk1).
      simpl in E. subst k1.
      apply dict_set_In in Hk1 as [[E _]|Hk1]; [congruence|].
      apply Hn. apply in_map_iff. now exists (k0, v1).
Qed.

Lemma download_loop_results cache_dir env_at i (fs : FS csv) results
    tickers period out fs' :
  download_loop upper is_empty empty_frame to_csv read_csv path_join
    cache_dir env_at i fs results tickers period = (inr out, fs') ->
  NoDup (map fst results) ->
  NoDup (map fst out) /\
  forall k v, In (k, v) out ->
              In (k, v) results \/ (In k tickers /\ is_empty v = false).
Proof.
  revert i fs results.
  induction tickers as [|t ts IH]; intros i fs results E Hnd.
  - simpl in E. injection E as <- <-. split; [exact Hnd | auto].
  - simpl in E.
    destruct (download_data upper is_empty empty_frame to_csv read_csv path_join
      cache_dir (env_at i) fs t period true)
      as [[e|data] fs1]; [discriminate|].
    apply IH in E.
    + destruct E as [Hout Hin]. split; [exact Hout|].
      intros k v Hk. destruct (Hin k v Hk) as [Hr|[Hr Hv]].
      * destruct (is_empty data) eqn:D; [now left|].
        apply dict_set_In in Hr as [[-> ->]|Hr]; [|now left].
        right. split; [now left | exact D].
      * right. split; [now right | exact Hv].
    + destruct (is_empty data); [exact Hnd | now apply dict_set_keys].
Qed.

(** X17.  What [download_multiple] returns holds each key once, every key is
    one of the tickers asked for, and no frame in it is empty: a ticker
    whose download failed or came back empty is left out. *)
Theorem download_multiple_keeps_nonempty (cache_dir : string)
    (env_at : nat -> Env frame) (fs fs' : FS csv) (tickers : list string)
    (period : string) (out : list (string * frame)) :
  download_multiple upper is_empty empty_frame to_csv read_csv path_join
    cache_dir env_at fs tickers period = (inr out, fs') ->
  NoDup (map fst out) /\
  forall k v, In (k, v) out -> In k tickers /\ is_empty v = false.
Proof.
  intros E. unfold download_multiple in E.
  apply download_loop_results in E; [|constructor].
  destruct E as [Hnd Hin]. split; [exact Hnd|].
  intros k v Hk. destruct (Hin k v Hk) as [[]|H]; exact H.
Qed.

End DownloadFacts.

(** The instance the model is run on: a frame is its list of closes. *)
Definition demo_env (t : Z) (answer : io (list Z)) : Env (list Z) :=
  {| now := t; yf_download := fun _ _ => answer; writable := fun _ => true |}.

Definition demo_download :=
  download_data upper_ascii list_is_empty [] (fun d : list Z => d)
                (fun c : list Z => inr c) join_slash.


Lemma second_download_reads_the_cache_witness :
  demo_download "data_cache" (demo_env 3600000000 (inl RemoteError))
    (write (fun _ => None) "data_cache/NSEI_10y.csv"
           {| mtime := 0; contents := [1; 2; 3]%Z |})
    "NIFTY50" "10y" true
  = (inr [1; 2; 3]%Z,
     write (fun _ => None) "data_cache/NSEI_10y.csv"
           {| mtime := 0; contents := [1; 2; 3]%Z |}).
Proof.
  exact (second_download_reads_the_cache upper_ascii (list Z)
           list_is_empty [] (list Z)
           (fun d : list Z => d) (fun c : list Z => inr c) join_slash
           "data_cache" (demo_env 0 (inr [1; 2; 3]%Z))
           (demo_env 3600000000 (inl RemoteError))
           (fun _ => None) _ "NIFTY50" "10y" true [1; 2; 3]%Z
           eq_refl eq_refl eq_refl eq_refl eq_refl).
Defined.

Lemma download_multiple_keeps_nonempty_witness :
  exists out fs',
    download_multiple upper_ascii list_is_empty [] (fun d : list Z => d)
      (fun c : list Z => inr c) join_slash "data_cache"
      (fun i => demo_env 0 (if Nat.eqb i 1 then inr [] else inr [Z.of_nat i]))
      (fun _ => None) ["TCS"; "INFY"; "HDFC"] "1y"
    = (inr out, fs') /\
    map fst out = ["TCS"; "HDFC"] /\
    forall k v, In (k, v) out -> list_is_empty v = false.
Proof.
  eexists _, _. split; [reflexivity|]. split; [reflexivity|].
  intros k v Hk.
  exact (proj2 (proj2 (download_multiple_keeps_nonempty upper_ascii
                         (list Z) list_is_empty [] (list Z)
                         (fun d : list Z => d)
                         (fun c : list Z => inr c) join_slash "data_cache"
                         (fun i => demo_env 0
                                     (if Nat.eqb i 1 then inr []
                                      else inr [Z.of_nat i]))
                         (fun _ => None) _ ["TCS"; "INFY"; "HDFC"] "1y" _
                         eq_refl) k v Hk)).
Defined.

End LoaderFacts.
